(** * PilibhitJob: the job board script, embedded and verified

    A shallow embedding of [src/script.js]: the CSV parser with its header
    key normaliser, the category/search filter, the card renderer and the
    board controller.

    Modelling conventions.
    - A JavaScript string is a [string]: a sequence of characters read as
      code units.  Case conversion and white space are those of the ASCII
      range; characters from 128 up are kept as they are and count as
      neither letters nor white space.
    - A job is the object literal [{}] filled by [job[key] = value]: a finite
      map from property names to values, a value being a string or
      [undefined].  Only own data properties are modelled: what an object
      inherits from [Object.prototype], the accessor [__proto__] included,
      is left out, so a header whose key is [__proto__] is not covered.
    - A JavaScript exception is an abrupt completion [Throw]; reading a
      method of [undefined] throws a [TypeError].
    - The globals ([allJobs], [currentFilter]) and the four DOM anchors are
      the fields of the record [page]; functions that touch them run in the
      monad [M]. *)

From Stdlib Require Import Ascii String.
From stdpp Require Import base strings list gmap pretty.

Local Open Scope string_scope.
Local Open Scope nat_scope.
Local Open Scope list_scope.

(** ** Strings: the methods of [String.prototype] the script calls *)

Module JsString.

Definition code (c : ascii) : nat := nat_of_ascii c.

(** WhiteSpace and LineTerminator of the ASCII range: TAB, LF, VT, FF, CR
    and SPACE. *)
Definition isWhiteSpace (c : ascii) : bool :=
  (((9 <=? code c) && (code c <=? 13)) || (code c =? 32))%nat.

Definition lowerChar (c : ascii) : ascii :=
  if ((65 <=? code c) && (code c <=? 90))%nat then ascii_of_nat (code c + 32) else c.

Definition upperChar (c : ascii) : ascii :=
  if ((97 <=? code c) && (code c <=? 122))%nat then ascii_of_nat (code c - 32) else c.

Fixpoint mapChars (f : ascii -> ascii) (s : string) : string :=
  match s with
  | EmptyString => EmptyString
  | String c s' => String (f c) (mapChars f s')
  end.

Definition toLowerCase (s : string) : string := mapChars lowerChar s.
Definition toUpperCase (s : string) : string := mapChars upperChar s.

Fixpoint trimStart (s : string) : string :=
  match s with
  | EmptyString => EmptyString
  | String c s' => if isWhiteSpace c then trimStart s' else s
  end.

Fixpoint trimEnd (s : string) : string :=
  match s with
  | EmptyString => EmptyString
  | String c s' =>
      match trimEnd s' with
      | EmptyString => if isWhiteSpace c then EmptyString else String c EmptyString
      | t => String c t
      end
  end.

Definition trim (s : string) : string := trimEnd (trimStart s).

(** [s.split(sep)] for a separator of one character: never the empty
    array, the empty string splits into one empty piece. *)
Fixpoint split (sep : ascii) (s : string) : list string :=
  match s with
  | EmptyString => [EmptyString]
  | String c s' =>
      if Ascii.eqb c sep then EmptyString :: split sep s'
      else match split sep s' with
           | piece :: pieces => String c piece :: pieces
           | [] => [String c EmptyString]
           end
  end.

(** [s.replace(/c/g, '')] for a pattern of one literal character. *)
Fixpoint removeAll (c : ascii) (s : string) : string :=
  match s with
  | EmptyString => EmptyString
  | String d s' => if Ascii.eqb d c then removeAll c s' else String d (removeAll c s')
  end.

Fixpoint includes (s sub : string) : bool :=
  String.prefix sub s ||
  match s with
  | EmptyString => false
  | String _ s' => includes s' sub
  end.

(** [s.substring(from, to)]: the arguments are swapped when out of order
    and clamped to the length. *)
Definition substring (from to : nat) (s : string) : string :=
  String.substring (from `min` to) ((from `max` to) - (from `min` to)) s.

Definition charAt (i : nat) (s : string) : string :=
  String.substring i 1 s.

(** [s.slice(from)] for a non-negative [from]. *)
Fixpoint slice (from : nat) (s : string) : string :=
  match from, s with
  | O, _ => s
  | S _, EmptyString => EmptyString
  | S n, String _ s' => slice n s'
  end.

(** [pieces.join('')]. *)
Definition join (pieces : list string) : string :=
  foldr String.append EmptyString pieces.

(** The double quote and the line feed, as characters. *)
Definition dquote : ascii := "034"%char.
Definition lf : ascii := "010"%char.

Definition quoted (s : string) : string :=
  String dquote s +:+ String dquote EmptyString.

(** The text of a template literal written line by line. *)
Fixpoint unlines (ls : list string) : string :=
  match ls with
  | [] => EmptyString
  | [l] => l
  | l :: ls' => l +:+ String lf (unlines ls')
  end.

End JsString.

Import JsString.

(** ** Values, objects and completions *)

(** What a property of a job holds: a string, or nothing. *)
Inductive value : Type :=
  | undefined
  | str (s : string).

(** [job.key] and [job[key]]: a missing property reads as [undefined]. *)
Definition prop (job : gmap string value) (key : string) : value :=
  default undefined (job !! key).

(** ToBoolean: [undefined] and the empty string are falsy. *)
Definition truthy (v : value) : bool :=
  match v with
  | undefined => false
  | str s => negb (String.eqb s "")
  end.

(** ToString, as a template literal applies it to [${...}]. *)
Definition toString (v : value) : string :=
  match v with
  | undefined => "undefined"
  | str s => s
  end.

Inductive exn : Type :=
  | Error (message : string)
  | TypeError (message : string).

Definition message (e : exn) : string :=
  match e with
  | Error m => m
  | TypeError m => m
  end.

Inductive completion (A : Type) : Type :=
  | Normal (a : A)
  | Throw (e : exn).
Arguments Normal {A} a.
Arguments Throw {A} e.

(** Sequencing: an exception skips what follows. *)
Definition andThen {A B : Type} (c : completion A) (k : A -> completion B) : completion B :=
  match c with
  | Normal a => k a
  | Throw e => Throw e
  end.

Notation "x <- c ;; k" := (andThen c (fun x => k))
  (at level 100, c at next level, right associativity).

(** [v.name(...)]: the receiver must be a string; on [undefined] the
    property read throws (the message is the one V8 gives). *)
Definition receiver (name : string) (v : value) : completion string :=
  match v with
  | str s => Normal s
  | undefined =>
      Throw (TypeError ("Cannot read properties of undefined (reading '" +:+ name +:+ "')"))
  end.

(** [a || b] on booleans that may throw: [b] is not evaluated when [a]
    is true. *)
Definition orElse (a b : completion bool) : completion bool :=
  x <- a ;; if x then Normal true else b.

(** [xs.filter(f)] with a callback that may throw: the elements are visited
    in order and the first exception ends the call. *)
Fixpoint filterM {A : Type} (f : A -> completion bool) (xs : list A) : completion (list A) :=
  match xs with
  | [] => Normal []
  | x :: xs' =>
      keep <- f x ;;
      rest <- filterM f xs' ;;
      Normal (if keep then x :: rest else rest)
  end.

(** [xs.map(f)] with a callback that may throw. *)
Fixpoint mapM {A B : Type} (f : A -> completion B) (xs : list A) : completion (list B) :=
  match xs with
  | [] => Normal []
  | x :: xs' =>
      y <- f x ;;
      ys <- mapM f xs' ;;
      Normal (y :: ys)
  end.

(** ** parseCSV (lines 23-51) *)

(** The callback of both [map]s over the comma-split tokens: [v.trim()],
    then every double quote replaced by nothing. *)
Definition cleanToken (v : string) : string := removeAll dquote (trim v).

(** The callback of [headers.map] (lines 32-38): the key of a header. *)
Definition headerKey (header : string) : string :=
  let words := split " " (toLowerCase header) in
  if (1 <? length words)%nat then
    match words with
    | first :: rest =>
        first +:+ join (map (fun w => toUpperCase (charAt 0 w) +:+ slice 1 w) rest)
    | [] => toLowerCase header
    end
  else toLowerCase header.

(** [values[index]]: [undefined] past the end of the array. *)
Definition element (values : list string) (index : nat) : value :=
  match values !! index with
  | Some v => str v
  | None => undefined
  end.

(** [keys.forEach((key, index) => { job[key] = values[index]; })], from
    position [index] on. *)
Fixpoint assignFrom (index : nat) (keys values : list string)
    (job : gmap string value) : gmap string value :=
  match keys with
  | [] => job
  | key :: keys' => assignFrom (S index) keys' values (<[key := element values index]> job)
  end.

(** The body of the [for] loop for one line. *)
Definition rowJob (keys : list string) (line : string) : gmap string value :=
  let values := map cleanToken (split "," line) in
  assignFrom 0 keys values ∅.

(** The [for] loop over the lines still to read, pushing onto [jobs]. *)
Fixpoint rowsLoop (keys rest : list string) (jobs : list (gmap string value))
    : list (gmap string value) :=
  match rest with
  | [] => jobs
  | line :: rest' => rowsLoop keys rest' (jobs ++ [rowJob keys line])
  end.

Definition parseCSV (csvText : string) : list (gmap string value) :=
  let lines := split lf (trim csvText) in
  if (length lines =? 0)%nat then []
  else
    let headers := map cleanToken (split "," (hd "" lines)) in
    let keys := map headerKey headers in
    rowsLoop keys (drop 1 lines) [].

(** ** createJobCardHTML

    The script declares [createJobCardHTML] twice, at lines 59-78 and at
    lines 199-243.  Both are function declarations of the same script, so
    the later one is the binding every call sees, [renderJobs] included.
    The earlier text is kept under [Shadowed]. *)

(** The nested conditional choosing the icon, on [job.type.toLowerCase()]. *)
Definition iconFor (lowerType : string) : string :=
  if includes lowerType "wfh" then "fas fa-home"
  else if includes lowerType "data entry" then "fas fa-keyboard"
  else if includes lowerType "telecalling" then "fas fa-phone-alt"
  else "fas fa-briefcase".

(** [job.salary || 'Competitive']. *)
Definition salaryOrDefault (job : gmap string value) : string :=
  if truthy (prop job "salary") then toString (prop job "salary") else "Competitive".

Module Shadowed.

Definition createJobCardHTML (job : gmap string value) : completion string :=
  lowerType <- (t <- receiver "toLowerCase" (prop job "type") ;; Normal (toLowerCase t)) ;;
  let icon := iconFor lowerType in
  description <- receiver "substring" (prop job "description") ;;
  Normal (unlines [
    "";
    "        <div class=" +:+ quoted "job-card" +:+ ">";
    "            <h3 title=" +:+ quoted (toString (prop job "jobTitle")) +:+ ">"
      +:+ toString (prop job "jobTitle") +:+ "</h3>";
    "            <span class=" +:+ quoted "company" +:+ ">"
      +:+ toString (prop job "company") +:+ "</span>";
    "            <div class=" +:+ quoted "meta" +:+ ">";
    "                <span><i class=" +:+ quoted icon +:+ "></i> "
      +:+ toString (prop job "type") +:+ "</span>";
    "                <span><i class=" +:+ quoted "fas fa-map-marker-alt" +:+ "></i> "
      +:+ toString (prop job "location") +:+ "</span>";
    "                <span><i class=" +:+ quoted "fas fa-money-bill-wave" +:+ "></i> "
      +:+ salaryOrDefault job +:+ "</span>";
    "            </div>";
    "            <p>" +:+ substring 0 100 description +:+ "...</p>";
    "            <a href=" +:+ quoted (toString (prop job "applyLink"))
      +:+ " target=" +:+ quoted "_blank" +:+ " class=" +:+ quoted "apply-btn"
      +:+ ">Apply Now <i class=" +:+ quoted "fas fa-arrow-right" +:+ "></i></a>";
    "        </div>";
    "    "
  ]).

End Shadowed.

(** [job.status ? job.status.trim() : 'Active'] (line 205). *)
Definition jobStatusOf (job : gmap string value) : string :=
  if truthy (prop job "status") then trim (toString (prop job "status")) else "Active".

(** The test of line 211. *)
Definition isClosing (jobStatus : string) : bool :=
  String.eqb jobStatus "Expired" || String.eqb jobStatus "Filled".

(** [badgeClass] and [isApplyActive] after the [if] of lines 211-217. *)
Definition badgeClassOf (jobStatus : string) : string :=
  if isClosing jobStatus then "status-closed" else "status-active".

Definition isApplyActiveOf (jobStatus : string) : bool :=
  if isClosing jobStatus then false else true.

(** The two templates of lines 221 and 222. *)
Definition applyLinkHTML (applyLink : string) : string :=
  "<a href=" +:+ quoted applyLink +:+ " target=" +:+ quoted "_blank"
    +:+ " class=" +:+ quoted "apply-btn" +:+ ">Apply Now <i class="
    +:+ quoted "fas fa-arrow-right" +:+ "></i></a>".

Definition disabledButtonHTML (jobStatus : string) : string :=
  "<button class=" +:+ quoted "apply-btn disabled" +:+ ">Application "
    +:+ jobStatus +:+ "</button>".

Definition applyButtonHTMLOf (job : gmap string value) (jobStatus : string) : string :=
  if isApplyActiveOf jobStatus
  then applyLinkHTML (toString (prop job "applyLink"))
  else disabledButtonHTML jobStatus.

(** The template literal of lines 225-242, line by line; the arguments are
    its interpolated expressions in order of appearance. *)
Definition cardLines (badgeClass statusText jobTitle company icon type location
    salary descriptionStart applyButtonHTML : string) : list string :=
  [ "";
    "        <div class=" +:+ quoted "job-card" +:+ ">";
    "            ";
    "            <span class=" +:+ quoted ("job-status-tag " +:+ badgeClass) +:+ ">"
      +:+ statusText +:+ "</span>";
    "            ";
    "            <h3 title=" +:+ quoted jobTitle +:+ ">" +:+ jobTitle +:+ "</h3>";
    "            <span class=" +:+ quoted "company" +:+ ">" +:+ company +:+ "</span>";
    "            <div class=" +:+ quoted "meta" +:+ ">";
    "                <span><i class=" +:+ quoted icon +:+ "></i> " +:+ type +:+ "</span>";
    "                <span><i class=" +:+ quoted "fas fa-map-marker-alt" +:+ "></i> "
      +:+ location +:+ "</span>";
    "                <span><i class=" +:+ quoted "fas fa-money-bill-wave" +:+ "></i> "
      +:+ salary +:+ "</span>";
    "            </div>";
    "            <p>" +:+ descriptionStart +:+ "...</p>";
    "            ";
    "            " +:+ applyButtonHTML;
    "";
    "        </div>";
    "    " ].

Definition createJobCardHTML (job : gmap string value) : completion string :=
  lowerType <- (t <- receiver "toLowerCase" (prop job "type") ;; Normal (toLowerCase t)) ;;
  let icon := iconFor lowerType in
  let jobStatus := jobStatusOf job in
  let badgeClass := badgeClassOf jobStatus in
  let applyButtonHTML := applyButtonHTMLOf job jobStatus in
  description <- receiver "substring" (prop job "description") ;;
  Normal (unlines (cardLines
    badgeClass
    (toUpperCase jobStatus)
    (toString (prop job "jobTitle"))
    (toString (prop job "company"))
    icon
    (toString (prop job "type"))
    (toString (prop job "location"))
    (salaryOrDefault job)
    (substring 0 100 description)
    applyButtonHTML)).

(** ** The page: globals and DOM anchors *)

Record page : Type := Page {
  allJobs : list (gmap string value);
  currentFilter : string;
  jobSearchInput_value : string;
  jobCardsContainer_innerHTML : string;
  filterCategoriesDiv_innerHTML : string;
  noResultsDiv_display : string
}.

(** A statement: it may throw, and what it wrote before stays written. *)
Definition M (A : Type) : Type := page -> completion A * page.

Definition ret {A : Type} (a : A) : M A := fun p => (Normal a, p).

Definition throw {A : Type} (e : exn) : M A := fun p => (Throw e, p).

Definition bind {A B : Type} (m : M A) (k : A -> M B) : M B :=
  fun p =>
    match m p with
    | (Normal a, p') => k a p'
    | (Throw e, p') => (Throw e, p')
    end.

Notation "x <== m ;; k" := (bind m (fun x => k))
  (at level 100, m at next level, right associativity).
Notation "m ;;; k" := (bind m (fun _ => k))
  (at level 100, right associativity).

Definition lift {A : Type} (c : completion A) : M A := fun p => (c, p).

Definition read {A : Type} (field : page -> A) : M A := fun p => (Normal (field p), p).

Definition write (update : page -> page) : M unit := fun p => (Normal tt, update p).

(** [try { body } catch (error) { handler }]. *)
Definition tryCatch (body : M unit) (handler : exn -> M unit) : M unit :=
  fun p =>
    match body p with
    | (Normal _, p') => (Normal tt, p')
    | (Throw error, p') => handler error p'
    end.

Definition set_allJobs (jobs : list (gmap string value)) (p : page) : page :=
  Page jobs (currentFilter p) (jobSearchInput_value p) (jobCardsContainer_innerHTML p)
       (filterCategoriesDiv_innerHTML p) (noResultsDiv_display p).

Definition set_jobCardsContainer_innerHTML (html : string) (p : page) : page :=
  Page (allJobs p) (currentFilter p) (jobSearchInput_value p) html
       (filterCategoriesDiv_innerHTML p) (noResultsDiv_display p).

Definition set_filterCategoriesDiv_innerHTML (html : string) (p : page) : page :=
  Page (allJobs p) (currentFilter p) (jobSearchInput_value p) (jobCardsContainer_innerHTML p)
       html (noResultsDiv_display p).

Definition set_noResultsDiv_display (display : string) (p : page) : page :=
  Page (allJobs p) (currentFilter p) (jobSearchInput_value p) (jobCardsContainer_innerHTML p)
       (filterCategoriesDiv_innerHTML p) display.

(** ** renderJobs (lines 84-94) *)

Definition renderJobs (jobsToRender : list (gmap string value)) : M unit :=
  write (set_jobCardsContainer_innerHTML "") ;;;
  if (length jobsToRender =? 0)%nat then
    write (set_noResultsDiv_display "block")
  else
    write (set_noResultsDiv_display "none") ;;;
    cards <== lift (mapM createJobCardHTML jobsToRender) ;;
    let html := join cards in
    write (set_jobCardsContainer_innerHTML html).

(** ** setupFilters (lines 99-123)

    The click listener it attaches is wiring, not state: a click on a button
    stores the button's type in [currentFilter] and runs
    [filterAndSearchJobs]. *)

(** [[...new Set(xs)]]: the first occurrence of each element, in order. *)
Definition distinct (xs : list string) : list string :=
  fold_left (fun seen x => if bool_decide (x ∈ seen) then seen else (seen ++ [x])%list) xs [].

(** The template of lines 106-110 for one filter. *)
Definition filterButtonHTML (type : string) : string :=
  unlines [
    "";
    "        <button class="
      +:+ quoted ("filter-btn " +:+ (if String.eqb type "All" then "active" else ""))
      +:+ " data-type=" +:+ quoted type +:+ ">";
    "            " +:+ type;
    "        </button>";
    "    "
  ].

Definition setupFilters : M unit :=
  jobs <== read allJobs ;;
  types <== lift (mapM (fun job => t <- receiver "trim" (prop job "type") ;; Normal (trim t)) jobs) ;;
  let jobTypes := distinct types in
  let filters := "All" :: jobTypes in
  write (set_filterCategoriesDiv_innerHTML (join (map filterButtonHTML filters))).

(** ** filterAndSearchJobs (lines 128-149) *)

(** The callback of line 134. *)
Definition inCategory (currentFilter : string) (job : gmap string value) : completion bool :=
  t <- receiver "trim" (prop job "type") ;;
  Normal (String.eqb (trim t) currentFilter).

(** One disjunct of the callback of lines 139-145. *)
Definition fieldIncludes (searchTerm key : string) (job : gmap string value) : completion bool :=
  field <- receiver "toLowerCase" (prop job key) ;;
  Normal (includes (toLowerCase field) searchTerm).

Definition matchesSearch (searchTerm : string) (job : gmap string value) : completion bool :=
  orElse (fieldIncludes searchTerm "jobTitle" job)
  (orElse (fieldIncludes searchTerm "company" job)
  (orElse (fieldIncludes searchTerm "description" job)
  (orElse (fieldIncludes searchTerm "location" job)
          (fieldIncludes searchTerm "type" job)))).

(** Step 1 (lines 133-135). *)
Definition categoryStage (currentFilter : string) (filteredJobs : list (gmap string value))
    : completion (list (gmap string value)) :=
  if negb (String.eqb currentFilter "All")
  then filterM (inCategory currentFilter) filteredJobs
  else Normal filteredJobs.

(** Step 2 (lines 138-146): a string is truthy when it is not empty. *)
Definition searchStage (searchTerm : string) (filteredJobs : list (gmap string value))
    : completion (list (gmap string value)) :=
  if negb (String.eqb searchTerm "")
  then filterM (matchesSearch searchTerm) filteredJobs
  else Normal filteredJobs.

(** [searchTerm] of line 130. *)
Definition searchTermOf (inputValue : string) : string := trim (toLowerCase inputValue).

(** The value of [filteredJobs] when line 148 is reached. *)
Definition filteredJobs (jobs : list (gmap string value)) (filter inputValue : string)
    : completion (list (gmap string value)) :=
  let searchTerm := searchTermOf inputValue in
  afterCategory <- categoryStage filter jobs ;;
  searchStage searchTerm afterCategory.

Definition filterAndSearchJobs : M unit :=
  jobs <== read allJobs ;;
  inputValue <== read jobSearchInput_value ;;
  filter <== read currentFilter ;;
  result <== lift (filteredJobs jobs filter inputValue) ;;
  renderJobs result.

(** ** initJobBoard (lines 157-187) *)

(** What [await fetch(...)] and [await response.text()] deliver: the request
    fails, or a response arrives with its [ok] flag, its [status] and its
    body text. *)
Inductive fetched : Type :=
  | Rejected (error : exn)
  | Response (ok : bool) (status : nat) (text : completion string).

(** The callback of line 168. *)
Definition isValidJob (job : gmap string value) : bool :=
  truthy (prop job "jobTitle") &&
  negb (String.eqb (toLowerCase (toString (prop job "jobTitle"))) "jobtitle").

(** The template of lines 179-185. *)
Definition errorBlockHTML (errorMessage : string) : string :=
  unlines [
    "";
    "            <div style="
      +:+ quoted "grid-column: 1 / -1; text-align: center; color: red; padding: 50px; background: #ffebeb; border-radius: 8px;"
      +:+ ">";
    "                <h2>Data Loading Error!</h2>";
    "                <p>Please check the <code>GOOGLE_SHEET_CSV_URL</code> in the script and ensure the Google Sheet is correctly published to the web as a CSV.</p>";
    "                <p>Error details: " +:+ errorMessage +:+ "</p>";
    "            </div>";
    "        "
  ].

Definition emptyDataMessage : string := "No valid job data found after parsing.".

(** The [console.error] of the handler is not part of the page. *)
Definition initJobBoard (response : fetched) : M unit :=
  tryCatch
    (match response with
     | Rejected error => throw error
     | Response ok status text =>
         if negb ok then throw (Error ("HTTP error! status: " +:+ pretty status))
         else
           csvText <== lift text ;;
           write (set_allJobs (parseCSV csvText)) ;;;
           parsed <== read allJobs ;;
           write (set_allJobs (List.filter isValidJob parsed)) ;;;
           valid <== read allJobs ;;
           if (length valid =? 0)%nat then throw (Error emptyDataMessage)
           else
             setupFilters ;;;
             jobs <== read allJobs ;;
             renderJobs jobs
     end)
    (fun error => write (set_jobCardsContainer_innerHTML (errorBlockHTML (message error)))).



(** ** Vocabulary of the statements *)

Definition isString (v : value) : bool :=
  match v with
  | str _ => true
  | undefined => false
  end.

(** The five properties the search callback reads. *)
Definition searchedFields : list string :=
  ["jobTitle"; "company"; "description"; "location"; "type"].

(** A record that carries the five searched properties as strings. *)
Definition hasSearchedFields (job : gmap string value) : bool :=
  forallb (fun key => isString (prop job key)) searchedFields.

(** The trimmed type of the record is the category, as whole strings. *)
Definition typeIs (category : string) (job : gmap string value) : bool :=
  String.eqb (trim (toString (prop job "type"))) category.

(** The term occurs in the lower-cased text of one of the five fields. *)
Definition someFieldIncludes (term : string) (job : gmap string value) : bool :=
  existsb (fun key => includes (toLowerCase (toString (prop job key))) term) searchedFields.

(** The records the category stage lets through. *)
Definition categoryFiltered (category : string) (jobs : list (gmap string value))
    : list (gmap string value) :=
  if String.eqb category "All" then jobs else List.filter (typeIs category) jobs.


Fixpoint allWhiteSpace (s : string) : bool :=
  match s with
  | EmptyString => true
  | String c s' => isWhiteSpace c && allWhiteSpace s'
  end.

(** The specification's wording of the key normaliser: the label is cut
    into words at the spaces, every word is lower-cased, every word after
    the first gets its first letter upper-cased, and the words are joined. *)
Definition capitalize (word : string) : string :=
  toUpperCase (charAt 0 word) +:+ slice 1 word.


(** The keys [parseCSV] derives from the header line. *)
Definition keysOf (headerLine : string) : list string :=
  map headerKey (map cleanToken (split "," headerLine)).

(** Sample records. *)
Definition record (fields : list (string * string)) : gmap string value :=
  list_to_map (map (fun kv => (fst kv, str (snd kv))) fields).

Definition devJob : gmap string value :=
  record [("jobTitle", "Dev"); ("company", "Acme"); ("description", "Code");
          ("location", "Pilibhit"); ("type", "WFH"); ("applyLink", "https://example.org/apply")].

Definition typistJob : gmap string value :=
  record [("jobTitle", "Typist"); ("company", "Beta"); ("description", "Forms");
          ("location", "Bareilly"); ("type", "wfh "); ("applyLink", "https://example.org/typist")].

(** ** The menu toggle (lines 246-262)

    The page is taken to hold the toggle button, its icon and the menu, so
    the three [querySelector] calls find their element.  A class list is
    the ordered set of tokens of a [DOMTokenList]. *)

Module ClassList.

Definition contains (token : string) (classes : list string) : bool :=
  bool_decide (token ∈ classes).

(** [classList.add(token)]: appended when not yet there. *)
Definition add (token : string) (classes : list string) : list string :=
  if contains token classes then classes else classes ++ [token].

(** [classList.remove(token)]. *)
Definition remove (token : string) (classes : list string) : list string :=
  List.filter (fun t => negb (String.eqb t token)) classes.

(** [classList.toggle(token)]. *)
Definition toggle (token : string) (classes : list string) : list string :=
  if contains token classes then remove token classes else add token classes.

End ClassList.

Record menu : Type := Menu {
  navMenu_classList : list string;
  icon_classList : list string
}.

(** The click listener of lines 249-262. *)
Definition menuToggleClick (m : menu) : menu :=
  let nav := ClassList.toggle "active" (navMenu_classList m) in
  if ClassList.contains "active" nav then
    Menu nav (ClassList.add "fa-times" (ClassList.remove "fa-bars" (icon_classList m)))
  else
    Menu nav (ClassList.add "fa-bars" (ClassList.remove "fa-times" (icon_classList m))).

(** ** Further vocabulary *)

(** The character occurs in the string. *)
Fixpoint occurs (c : ascii) (s : string) : bool :=
  match s with
  | EmptyString => false
  | String d s' => Ascii.eqb d c || occurs c s'
  end.





(** The type of a record as the category buttons show it. *)
Definition trimmedType (job : gmap string value) : string :=
  trim (toString (prop job "type")).

(** A record the card renderer accepts. *)
Definition isRenderable (job : gmap string value) : bool :=
  isString (prop job "type") && isString (prop job "description").

(** The message of the [TypeError] thrown when [name] is read off
    [undefined]. *)
Definition undefinedRead (name : string) : exn :=
  TypeError ("Cannot read properties of undefined (reading '" +:+ name +:+ "')").

(** * Properties *)

(** ** Strings *)

Section StringFacts.

Implicit Types (s t : string) (c : ascii).


Lemma split_nonempty c s : split c s ≠ [].
Proof.
  destruct s as [|d s]; simpl; [done |].
  destruct (Ascii.eqb d c); [done |]. by destruct (split c s).
Qed.

Lemma length_split_pos c s : 0 < length (split c s).
Proof. pose proof (split_nonempty c s). destruct (split c s); simpl; [done | lia]. Qed.

Lemma lowerChar_space c : Ascii.eqb (lowerChar c) " " = Ascii.eqb c " ".
Proof. by destruct c as [[] [] [] [] [] [] [] []]. Qed.

Lemma lowerChar_whiteSpace c : isWhiteSpace c = true → lowerChar c = c.
Proof. by destruct c as [[] [] [] [] [] [] [] []]. Qed.


Lemma trimStart_allWhiteSpace s : allWhiteSpace s = true → trimStart s = "".
Proof.
  induction s as [|c s IH]; simpl; [done |].
  intros [Hc Hs]%andb_prop. rewrite Hc. auto.
Qed.

Lemma toLowerCase_allWhiteSpace s : allWhiteSpace s = true → toLowerCase s = s.
Proof.
  induction s as [|c s IH]; [done |].
  intros [Hc Hs]%andb_prop.
  change (String (lowerChar c) (toLowerCase s) = String c s).
  by rewrite lowerChar_whiteSpace, IH.
Qed.




End StringFacts.

(** ** Objects *)

Section ObjectFacts.

Implicit Types (job : gmap string value) (key : string) (v : value).

Lemma prop_insert_eq job key v : prop (<[key := v]> job) key = v.
Proof. unfold prop. by rewrite lookup_insert_eq. Qed.

Lemma prop_insert_ne job key key' v :
  key ≠ key' → prop (<[key := v]> job) key' = prop job key'.
Proof. intros Hne. unfold prop. by rewrite lookup_insert_ne. Qed.

Lemma prop_delete_eq job key : prop (delete key job) key = undefined.
Proof. unfold prop. by rewrite lookup_delete_eq. Qed.

Lemma prop_delete_ne job key key' :
  key ≠ key' → prop (delete key job) key' = prop job key'.
Proof. intros Hne. unfold prop. by rewrite lookup_delete_ne. Qed.

End ObjectFacts.

(** ** The parser *)

Section ParserFacts.

Implicit Types (keys values rest lines : list string) (job : gmap string value).

(** The loop pushes one record per line, in the order of the lines. *)
Lemma rowsLoop_map keys rest (jobs : list (gmap string value)) :
  rowsLoop keys rest jobs = (jobs ++ map (rowJob keys) rest)%list.
Proof.
  revert jobs. induction rest as [|line rest IH]; intros jobs; simpl.
  - by rewrite app_nil_r.
  - by rewrite IH, <- app_assoc.
Qed.

Lemma parseCSV_rows csvText :
  parseCSV csvText =
    map (rowJob (keysOf (hd "" (split lf (trim csvText)))))
        (drop 1 (split lf (trim csvText))).
Proof.
  unfold parseCSV, keysOf.
  pose proof (length_split_pos lf (trim csvText)) as Hpos.
  destruct (Nat.eqb_spec (length (split lf (trim csvText))) 0) as [H0 | _]; [lia |].
  by rewrite rowsLoop_map.
Qed.









End ParserFacts.

Lemma split_singleton c s w : split c s = [w] → s = w.
Proof.
  revert w. induction s as [|d s IH]; intros w; simpl.
  - by intros [= <-].
  - destruct (Ascii.eqb d c).
    + intros [= _ Hnil]. by apply split_nonempty in Hnil.
    + destruct (split c s) as [|piece pieces] eqn:Hs; [by apply split_nonempty in Hs |].
      intros [= <- ->]. by rewrite (IH piece).
Qed.







(** ** The card renderer *)

Section RendererFacts.

Implicit Types (job : gmap string value) (s t d : string).

(** The card depends on the record through its status as read by line 205
    and through the other properties only. *)
Lemma createJobCardHTML_same_fields job1 job2 :
  (∀ key, key ≠ "status" → prop job1 key = prop job2 key) →
  jobStatusOf job1 = jobStatusOf job2 →
  createJobCardHTML job1 = createJobCardHTML job2.
Proof.
  intros Hfields Hstatus.
  unfold createJobCardHTML, applyButtonHTMLOf, salaryOrDefault.
  rewrite Hstatus. by rewrite !Hfields by done.
Qed.

Lemma jobStatusOf_undefined job :
  prop job "status" = undefined → jobStatusOf job = "Active".
Proof. intros Hstatus. unfold jobStatusOf. by rewrite Hstatus. Qed.


Lemma createJobCardHTML_normal job t d :
  prop job "type" = str t →
  prop job "description" = str d →
  createJobCardHTML job =
    Normal (unlines (cardLines
      (badgeClassOf (jobStatusOf job))
      (toUpperCase (jobStatusOf job))
      (toString (prop job "jobTitle"))
      (toString (prop job "company"))
      (iconFor (toLowerCase t))
      t
      (toString (prop job "location"))
      (salaryOrDefault job)
      (substring 0 100 d)
      (applyButtonHTMLOf job (jobStatusOf job)))).
Proof. intros Htype Hdescription. unfold createJobCardHTML. by rewrite Htype, Hdescription. Qed.

(** The earlier declaration never reads the status: had it been the one in
    force, every card would carry the live link. *)
Lemma Shadowed_createJobCardHTML_ignores_status job v :
  Shadowed.createJobCardHTML (<["status" := v]> job) = Shadowed.createJobCardHTML job.
Proof.
  unfold Shadowed.createJobCardHTML, salaryOrDefault.
  by rewrite !prop_insert_ne by done.
Qed.

End RendererFacts.





(** C10. A record whose status is the empty string is rendered as the same
    record without a status: the empty string is falsy at line 205, so the
    status read is [Active], the badge is the open one and the apply control
    is the link to [applyLink]. *)
Theorem C10_empty_status_is_absent_status (job : gmap string value) :
  createJobCardHTML (<["status" := str ""]> job) =
    createJobCardHTML (delete "status" job) ∧
  jobStatusOf (<["status" := str ""]> job) = "Active" ∧
  jobStatusOf (delete "status" job) = "Active" ∧
  badgeClassOf (jobStatusOf (<["status" := str ""]> job)) = "status-active" ∧
  applyButtonHTMLOf (<["status" := str ""]> job) (jobStatusOf (<["status" := str ""]> job)) =
    applyLinkHTML (toString (prop job "applyLink")).
Proof.
  assert (jobStatusOf (<["status" := str ""]> job) = "Active") as Hempty.
  { unfold jobStatusOf. by rewrite prop_insert_eq. }
  assert (jobStatusOf (delete "status" job) = "Active") as Habsent.
  { apply jobStatusOf_undefined, prop_delete_eq. }
  split; [| split; [done | split; [done |]]].
  - apply createJobCardHTML_same_fields; [| congruence].
    intros key Hkey. by rewrite prop_insert_ne, prop_delete_ne.
  - rewrite Hempty. split; [done |].
    unfold applyButtonHTMLOf. simpl. by rewrite prop_insert_ne.
Qed.

(** ** The filter *)

Section FilterFacts.

Implicit Types (job : gmap string value) (jobs : list (gmap string value)).

(** A callback that never throws makes [filterM] the ordinary filter. *)
Lemma filterM_total {A : Type} (f : A → completion bool) (g : A → bool) (xs : list A) :
  Forall (λ x, f x = Normal (g x)) xs →
  filterM f xs = Normal (List.filter g xs).
Proof.
  induction 1 as [|x xs Hx _ IH]; simpl; [done |].
  rewrite Hx. simpl. rewrite IH. simpl. by destruct (g x).
Qed.

Lemma filter_sublist {A : Type} (g : A → bool) (xs : list A) :
  sublist (List.filter g xs) xs.
Proof.
  induction xs as [|x xs IH]; simpl; [constructor |].
  destruct (g x); by constructor.
Qed.

Lemma Forall_filter {A : Type} (P : A → Prop) (g : A → bool) (xs : list A) :
  Forall P xs → Forall P (List.filter g xs).
Proof.
  induction 1 as [|x xs Hx _ IH]; simpl; [constructor |].
  destruct (g x); [by constructor | done].
Qed.

Lemma elem_of_filter {A : Type} (g : A → bool) (xs : list A) (x : A) :
  x ∈ List.filter g xs ↔ x ∈ xs ∧ g x = true.
Proof. rewrite !list_elem_of_In. apply filter_In. Qed.

Lemma inCategory_typed category job :
  isString (prop job "type") = true →
  inCategory category job = Normal (typeIs category job).
Proof.
  unfold inCategory, typeIs. by destruct (prop job "type").
Qed.

Lemma matchesSearch_total term job :
  hasSearchedFields job = true →
  matchesSearch term job = Normal (someFieldIncludes term job).
Proof.
  unfold hasSearchedFields, matchesSearch, someFieldIncludes, fieldIncludes, searchedFields.
  simpl.
  destruct (prop job "jobTitle") as [|s1]; [done |].
  destruct (prop job "company") as [|s2]; [done |].
  destruct (prop job "description") as [|s3]; [done |].
  destruct (prop job "location") as [|s4]; [done |].
  destruct (prop job "type") as [|s5]; [done |].
  intros _. simpl.
  destruct (includes (toLowerCase s1) term); [done |].
  destruct (includes (toLowerCase s2) term); [done |].
  destruct (includes (toLowerCase s3) term); [done |].
  destruct (includes (toLowerCase s4) term); [done |].
  by destruct (includes (toLowerCase s5) term).
Qed.

Lemma hasSearchedFields_type job :
  hasSearchedFields job = true → isString (prop job "type") = true.
Proof.
  unfold hasSearchedFields, searchedFields. simpl.
  intros H. repeat (apply andb_prop in H as [? H]). done.
Qed.

Lemma categoryStage_typed category jobs :
  Forall (λ job, isString (prop job "type") = true) jobs →
  categoryStage category jobs = Normal (categoryFiltered category jobs).
Proof.
  intros Htyped. unfold categoryStage, categoryFiltered.
  destruct (String.eqb category "All"); simpl; [done |].
  apply filterM_total.
  eapply Forall_impl; [exact Htyped |]. intros job. apply inCategory_typed.
Qed.

Lemma searchTermOf_allWhiteSpace text :
  allWhiteSpace text = true → searchTermOf text = "".
Proof.
  intros Hws. unfold searchTermOf, trim.
  rewrite toLowerCase_allWhiteSpace by done.
  by rewrite trimStart_allWhiteSpace.
Qed.


Lemma filterAndSearchJobs_run p :
  filterAndSearchJobs p =
    match filteredJobs (allJobs p) (currentFilter p) (jobSearchInput_value p) with
    | Normal result => renderJobs result p
    | Throw e => (Throw e, p)
    end.
Proof. reflexivity. Qed.

End FilterFacts.








(** ** The controller *)

Section ControllerFacts.

Implicit Types (job : gmap string value) (p : page).

(** The records line 168 keeps: the title is a string, not empty, and its
    lower-cased text is not [jobtitle]. *)
Lemma isValidJob_spec job :
  isValidJob job = true ↔
  ∃ title, prop job "jobTitle" = str title ∧ title ≠ "" ∧ toLowerCase title ≠ "jobtitle".
Proof.
  unfold isValidJob. destruct (prop job "jobTitle") as [|title]; simpl.
  - split; [done | by intros (title & ? & _)].
  - destruct (String.eqb_spec title "") as [-> | Hne]; simpl.
    + split; [done | by intros (title & [= <-] & ? & _)].
    + destruct (String.eqb_spec (toLowerCase title) "jobtitle") as [Heq | Hne']; simpl.
      * split; [done | by intros (title' & [= <-] & _ & ?)].
      * split; [by exists title | done].
Qed.

(** What [initJobBoard] does with a successful response. *)
Lemma initJobBoard_ok status csvText p :
  initJobBoard (Response true status (Normal csvText)) p =
    let valid := List.filter isValidJob (parseCSV csvText) in
    let p1 := set_allJobs valid (set_allJobs (parseCSV csvText) p) in
    if length valid =? 0
    then (Normal tt, set_jobCardsContainer_innerHTML (errorBlockHTML emptyDataMessage) p1)
    else
      tryCatch (setupFilters ;;; jobs <== read allJobs ;; renderJobs jobs)
        (fun error => write (set_jobCardsContainer_innerHTML (errorBlockHTML (message error))))
        p1.
Proof.
  unfold initJobBoard, tryCatch. cbn [negb].
  cbv [bind lift write read]. cbn [allJobs set_allJobs].
  destruct (length (List.filter isValidJob (parseCSV csvText)) =? 0); reflexivity.
Qed.

End ControllerFacts.

(** C2. The validity filter of the controller discards every record whose
    [jobTitle] is missing, empty, or equal to [jobtitle] once lower-cased,
    and keeps the others.  When no record survives, [initJobBoard] ends in
    its error handler with the message [No valid job data found after
    parsing.]: the container shows the error block with that message, and
    neither the filter buttons nor the result indicator are written. *)
Theorem C2_invalid_records_and_empty_dataset :
  (∀ (jobs : list (gmap string value)) job,
     job ∈ List.filter isValidJob jobs ↔
     job ∈ jobs ∧
     ∃ title, prop job "jobTitle" = str title ∧ title ≠ "" ∧
              toLowerCase title ≠ "jobtitle") ∧
  (∀ (jobs : list (gmap string value)) job,
     prop job "jobTitle" = undefined ∨
     prop job "jobTitle" = str "" ∨
     (∃ title, prop job "jobTitle" = str title ∧ toLowerCase title = "jobtitle") →
     job ∉ List.filter isValidJob jobs) ∧
  (∀ status csvText p,
     List.filter isValidJob (parseCSV csvText) = [] →
     initJobBoard (Response true status (Normal csvText)) p =
       (Normal tt,
        set_jobCardsContainer_innerHTML
          (errorBlockHTML "No valid job data found after parsing.")
          (set_allJobs [] p)) ∧
     filterCategoriesDiv_innerHTML
       (snd (initJobBoard (Response true status (Normal csvText)) p)) =
       filterCategoriesDiv_innerHTML p ∧
     noResultsDiv_display
       (snd (initJobBoard (Response true status (Normal csvText)) p)) =
       noResultsDiv_display p).
Proof.
  split; [| split].
  - intros jobs job. by rewrite elem_of_filter, isValidJob_spec.
  - intros jobs job Hbad. rewrite elem_of_filter, isValidJob_spec.
    intros (_ & title & Htitle & Hne & Hlower).
    destruct Hbad as [Hu | [He | (title' & Htitle' & Hlower')]]; congruence.
  - intros status csvText p Hempty.
    rewrite initJobBoard_ok, Hempty. done.
Qed.

Lemma C2_invalid_records_and_empty_dataset_witness :
  initJobBoard
      (Response true 200 (Normal (unlines ["Job Title,Company"; "JobTitle,x"; ",Acme"])))
      (Page [] "All" "" "" "" "") =
    (Normal tt,
     set_jobCardsContainer_innerHTML
       (errorBlockHTML "No valid job data found after parsing.")
       (set_allJobs [] (Page [] "All" "" "" "" ""))).
Proof.
  apply (proj2 (proj2 C2_invalid_records_and_empty_dataset)). reflexivity.
Defined.

(** * Further properties of the script *)

(** ** More on strings *)

Section MoreStringFacts.

Implicit Types (s t piece : string) (c d : ascii) (pieces : list string).

Lemma occurs_app c s t : occurs c (s +:+ t) = occurs c s || occurs c t.
Proof.
  induction s as [|e s IH]; [done |].
  change (Ascii.eqb e c || occurs c (s +:+ t) = Ascii.eqb e c || occurs c s || occurs c t).
  rewrite IH. by destruct (Ascii.eqb e c).
Qed.



Lemma upperChar_space c : Ascii.eqb (upperChar c) " " = Ascii.eqb c " ".
Proof. by destruct c as [[] [] [] [] [] [] [] []]. Qed.



Lemma occurs_space_toLowerCase s : occurs " " (toLowerCase s) = occurs " " s.
Proof.
  induction s as [|c s IH]; [done |].
  change (Ascii.eqb (lowerChar c) " " || occurs " " (toLowerCase s)
          = Ascii.eqb c " " || occurs " " s).
  by rewrite lowerChar_space, IH.
Qed.

Lemma occurs_space_toUpperCase s : occurs " " (toUpperCase s) = occurs " " s.
Proof.
  induction s as [|c s IH]; [done |].
  change (Ascii.eqb (upperChar c) " " || occurs " " (toUpperCase s)
          = Ascii.eqb c " " || occurs " " s).
  by rewrite upperChar_space, IH.
Qed.

(** The pieces of a split hold no separator, and no character the string
    did not hold. *)
Lemma split_pieces c d s piece :
  piece ∈ split c s →
  occurs c piece = false ∧ (occurs d piece = true → occurs d s = true).
Proof.
  revert piece. induction s as [|e s IH]; intros piece; simpl.
  - intros ->%list_elem_of_singleton. done.
  - destruct (Ascii.eqb_spec e c) as [-> | Hne].
    + intros [-> | Hin]%elem_of_cons; [done |].
      destruct (IH piece Hin) as [Hsep Hchars]. split; [done |].
      intros Hd. rewrite (Hchars Hd). by destruct (Ascii.eqb c d).
    + pose proof (split_nonempty c s) as Hnonempty.
      destruct (split c s) as [|first rest]; [done |].
      intros [-> | Hin]%elem_of_cons.
      * destruct (IH first) as [Hsep Hchars]; [by left |]. simpl. split.
        -- rewrite Hsep. by destruct (Ascii.eqb_spec e c).
        -- destruct (Ascii.eqb e d); [done |]. simpl. apply Hchars.
      * destruct (IH piece) as [Hsep Hchars]; [by right |]. split; [done |].
        intros Hd. rewrite (Hchars Hd). by destruct (Ascii.eqb e d).
Qed.

Lemma occurs_trimStart d s : occurs d (trimStart s) = true → occurs d s = true.
Proof.
  induction s as [|e s IH]; simpl; [done |].
  destruct (isWhiteSpace e); [| done].
  intros Hd. rewrite (IH Hd). by destruct (Ascii.eqb e d).
Qed.

Lemma occurs_trimEnd d s : occurs d (trimEnd s) = true → occurs d s = true.
Proof.
  induction s as [|e s IH]; simpl; [done |].
  destruct (trimEnd s) as [|f t] eqn:Hend.
  - destruct (isWhiteSpace e); simpl; [done |].
    destruct (Ascii.eqb e d); [done | done].
  - change (Ascii.eqb e d || occurs d (String f t) = true → Ascii.eqb e d || occurs d s = true).
    destruct (Ascii.eqb e d); [done |]. simpl. apply IH.
Qed.

Lemma occurs_trim d s : occurs d (trim s) = true → occurs d s = true.
Proof. intros Hd. by apply occurs_trimStart, occurs_trimEnd. Qed.

Lemma occurs_removeAll c d s :
  occurs c (removeAll c s) = false ∧
  (occurs d (removeAll c s) = true → occurs d s = true).
Proof.
  induction s as [|e s [IHc IHd]]; simpl; [done |].
  destruct (Ascii.eqb_spec e c) as [-> | Hne].
  - split; [done |]. intros Hd. rewrite (IHd Hd). by destruct (Ascii.eqb c d).
  - simpl. split.
    + rewrite IHc. by destruct (Ascii.eqb_spec e c).
    + destruct (Ascii.eqb e d); [done |]. simpl. apply IHd.
Qed.


Lemma split_absent c s : occurs c s = false → split c s = [s].
Proof.
  induction s as [|e s IH]; simpl; [done |].
  destruct (Ascii.eqb e c); simpl; [done |]. intros Hs. by rewrite IH.
Qed.




End MoreStringFacts.

(** ** More on the parser *)

Section MoreParserFacts.

Implicit Types (keys values : list string) (job : gmap string value).


Lemma cleanToken_chars d token :
  occurs dquote (cleanToken token) = false ∧
  (occurs d (cleanToken token) = true → occurs d token = true).
Proof.
  unfold cleanToken. destruct (occurs_removeAll dquote d (trim token)) as [Hquote Hchars].
  split; [done |]. intros Hd. by apply occurs_trim, Hchars.
Qed.

(** A string the loop leaves under a key is one of the tokens, unless the
    object held it already. *)
Lemma assignFrom_values index keys values job key v :
  assignFrom index keys values job !! key = Some (str v) →
  v ∈ values ∨ job !! key = Some (str v).
Proof.
  revert index job. induction keys as [|k keys IH]; intros index job; simpl; [by right |].
  intros [Hin | Hjob]%IH; [by left |].
  destruct (decide (k = key)) as [-> | Hne].
  - rewrite lookup_insert_eq in Hjob. left. unfold element in Hjob.
    destruct (values !! index) as [token|] eqn:Htoken; [| done].
    injection Hjob as ->. by eapply list_elem_of_lookup_2.
  - right. by rewrite lookup_insert_ne in Hjob.
Qed.


Lemma capitalize_no_space word : occurs " " word = false → occurs " " (capitalize word) = false.
Proof.
  destruct word as [|c word]; [done |].
  assert (capitalize (String c word) = String (upperChar c) word) as ->.
  { unfold capitalize, charAt. by destruct word. }
  simpl. by rewrite upperChar_space.
Qed.

Lemma join_no_space (pieces : list string) :
  Forall (λ piece, occurs " " piece = false) pieces → occurs " " (join pieces) = false.
Proof.
  induction 1 as [|piece pieces Hpiece _ IH]; [done |].
  change (occurs " " (piece +:+ join pieces) = false).
  by rewrite occurs_app, Hpiece, IH.
Qed.

End MoreParserFacts.



(** X2. No string the parser puts into a record holds a comma, a line feed
    or a double quote. *)
Theorem parseCSV_values_free_of_separators
    (csvText : string) (job : gmap string value) (key v : string) :
  job ∈ parseCSV csvText →
  job !! key = Some (str v) →
  occurs "," v = false ∧ occurs lf v = false ∧ occurs dquote v = false.
Proof.
  rewrite parseCSV_rows. intros (line & -> & Hline)%list_elem_of_fmap Hvalue.
  apply list_elem_of_lookup in Hline as [i Hi]. rewrite lookup_drop in Hi.
  apply list_elem_of_lookup_2 in Hi.
  destruct (split_pieces lf lf _ _ Hi) as [Hlf _].
  unfold rowJob in Hvalue. apply assignFrom_values in Hvalue as [Hin | Hempty]; [| done].
  apply list_elem_of_fmap in Hin as (token & -> & Htoken).
  destruct (split_pieces "," lf _ _ Htoken) as [Hcomma Hchars].
  split; [| split].
  - destruct (occurs "," (cleanToken token)) eqn:Hc; [| done].
    apply (proj2 (cleanToken_chars "," token)) in Hc. congruence.
  - destruct (occurs lf (cleanToken token)) eqn:Hc; [| done].
    apply (proj2 (cleanToken_chars lf token)) in Hc. apply Hchars in Hc. congruence.
  - apply cleanToken_chars. exact lf.
Qed.

Lemma parseCSV_values_free_of_separators_witness :
  occurs "," "Dev" = false ∧ occurs lf "Dev" = false ∧ occurs dquote "Dev" = false.
Proof.
  apply (parseCSV_values_free_of_separators
           (unlines ["Job Title,Company"; "Dev,Acme"])
           (rowJob ["jobTitle"; "company"] "Dev,Acme") "jobTitle" "Dev").
  - vm_compute. by left.
  - reflexivity.
Defined.



(** X4. A key never holds a space, whatever the header label. *)
Theorem headerKey_has_no_space (header : string) :
  occurs " " (headerKey header) = false.
Proof.
  unfold headerKey.
  destruct (split " " (toLowerCase header)) as [|first rest] eqn:Hsplit.
  { by apply split_nonempty in Hsplit. }
  assert (Forall (λ piece, occurs " " piece = false) (first :: rest)) as Hwords.
  { apply Forall_forall. intros piece Hpiece. rewrite <- Hsplit in Hpiece.
    by destruct (split_pieces " " " " _ _ Hpiece). }
  apply Forall_cons in Hwords as [Hfirst Hrest].
  destruct rest as [|second rest]; simpl.
  - apply split_singleton in Hsplit. by rewrite Hsplit.
  - rewrite occurs_app, Hfirst. simpl. apply (join_no_space (map capitalize (second :: rest))).
    apply Forall_fmap. eapply Forall_impl; [exact Hrest |].
    intros word. apply capitalize_no_space.
Qed.

(** ** More on the card renderer *)

Section MoreRendererFacts.

Implicit Types (job : gmap string value) (s : string).

Lemma trim_allWhiteSpace s : allWhiteSpace s = true → trim s = "".
Proof. intros Hws. unfold trim. by rewrite trimStart_allWhiteSpace. Qed.


End MoreRendererFacts.

(** X5. The card renderer completes exactly on the records whose [type] and
    [description] are strings.  Without a type it throws the [TypeError] of
    reading [toLowerCase] off [undefined]; with a type but no description,
    that of reading [substring]. *)
Theorem createJobCardHTML_completes_iff_renderable (job : gmap string value) :
  (isRenderable job = true ↔ ∃ html, createJobCardHTML job = Normal html) ∧
  (prop job "type" = undefined →
   createJobCardHTML job = Throw (undefinedRead "toLowerCase")) ∧
  (isString (prop job "type") = true → prop job "description" = undefined →
   createJobCardHTML job = Throw (undefinedRead "substring")).
Proof.
  unfold isRenderable, createJobCardHTML.
  destruct (prop job "type") as [|t]; simpl.
  - split; [| done]. split; [done | by intros [html ?]].
  - destruct (prop job "description") as [|d]; simpl.
    + split; [| done]. split; [done | by intros [html ?]].
    + split; [| done]. split; [by eexists | done].
Qed.

Lemma createJobCardHTML_completes_iff_renderable_witness :
  createJobCardHTML (delete "description" devJob) = Throw (undefinedRead "substring").
Proof.
  apply (proj2 (proj2 (createJobCardHTML_completes_iff_renderable
                         (delete "description" devJob)))); reflexivity.
Defined.



(** X7. A status that is not empty but all white space is not defaulted to
    [Active]: the status read is the empty string, so the badge is the open
    one with no text in it. *)
Theorem blank_status_gives_empty_badge (job : gmap string value) (s : string) :
  prop job "status" = str s →
  s ≠ "" →
  allWhiteSpace s = true →
  jobStatusOf job = "" ∧
  toUpperCase (jobStatusOf job) = "" ∧
  badgeClassOf (jobStatusOf job) = "status-active" ∧
  jobStatusOf (delete "status" job) = "Active".
Proof.
  intros Hstatus Hnonempty Hws.
  assert (jobStatusOf job = "") as ->.
  { unfold jobStatusOf. rewrite Hstatus. simpl.
    destruct (String.eqb_spec s ""); [done |]. simpl. by apply trim_allWhiteSpace. }
  split; [done |]. split; [done |]. split; [done |].
  apply jobStatusOf_undefined, prop_delete_eq.
Qed.

Lemma blank_status_gives_empty_badge_witness :
  jobStatusOf (<["status" := str "  "]> devJob) = "".
Proof.
  apply (blank_status_gives_empty_badge (<["status" := str "  "]> devJob) "  ");
    [reflexivity | discriminate | reflexivity].
Defined.

(** ** More on rendering the list *)

Section MoreRenderFacts.

Implicit Types (jobs : list (gmap string value)) (p : page).

Lemma renderJobs_run jobs p :
  renderJobs jobs p =
    if length jobs =? 0 then
      (Normal tt, set_noResultsDiv_display "block" (set_jobCardsContainer_innerHTML "" p))
    else
      match mapM createJobCardHTML jobs with
      | Normal cards =>
          (Normal tt,
           set_jobCardsContainer_innerHTML (join cards)
             (set_noResultsDiv_display "none" (set_jobCardsContainer_innerHTML "" p)))
      | Throw e =>
          (Throw e, set_noResultsDiv_display "none" (set_jobCardsContainer_innerHTML "" p))
      end.
Proof.
  unfold renderJobs, bind, write, lift. simpl.
  destruct (length jobs =? 0); [done |].
  by destruct (mapM createJobCardHTML jobs).
Qed.

End MoreRenderFacts.

(** X8. [renderJobs] shows the no-results indicator exactly when it is given
    no record: whenever it completes, the indicator is [block] for the empty
    list, with an empty container, and [none] with the joined cards
    otherwise.  When a card throws, the exception leaves the container empty
    and the indicator hidden.  It never writes the globals, the search box or
    the filter buttons. *)
Theorem renderJobs_outcomes (jobs : list (gmap string value)) (p : page) :
  (fst (renderJobs jobs p) = Normal tt →
   (noResultsDiv_display (snd (renderJobs jobs p)) = "block" ↔ jobs = []) ∧
   (noResultsDiv_display (snd (renderJobs jobs p)) = "none" ↔ jobs ≠ []) ∧
   (jobs = [] → jobCardsContainer_innerHTML (snd (renderJobs jobs p)) = "") ∧
   (∃ cards, mapM createJobCardHTML jobs = Normal cards ∧
             jobCardsContainer_innerHTML (snd (renderJobs jobs p)) = join cards)) ∧
  (∀ e, fst (renderJobs jobs p) = Throw e →
        mapM createJobCardHTML jobs = Throw e ∧
        jobCardsContainer_innerHTML (snd (renderJobs jobs p)) = "" ∧
        noResultsDiv_display (snd (renderJobs jobs p)) = "none") ∧
  allJobs (snd (renderJobs jobs p)) = allJobs p ∧
  currentFilter (snd (renderJobs jobs p)) = currentFilter p ∧
  jobSearchInput_value (snd (renderJobs jobs p)) = jobSearchInput_value p ∧
  filterCategoriesDiv_innerHTML (snd (renderJobs jobs p)) = filterCategoriesDiv_innerHTML p.
Proof.
  rewrite renderJobs_run. destruct jobs as [|job jobs].
  - simpl. split; [| split; [done | done]]. intros _.
    split; [done |]. split; [done |]. split; [done |]. by exists [].
  - change (length (job :: jobs) =? 0) with false. cbv iota.
    destruct (mapM createJobCardHTML (job :: jobs)) as [cards | e0]; simpl.
    + split; [| split; [done | done]]. intros _.
      split; [done |]. split; [done |]. split; [done |]. by exists cards.
    + split; [done |]. split; [| done]. by intros e [= ->].
Qed.

Lemma renderJobs_outcomes_witness :
  noResultsDiv_display (snd (renderJobs [devJob] (Page [] "All" "" "" "" ""))) = "none" ↔
    [devJob] ≠ [].
Proof.
  apply (proj1 (renderJobs_outcomes [devJob] (Page [] "All" "" "" "" ""))). reflexivity.
Defined.

(** X9. [renderJobs] replaces the whole output: what the container and the
    indicator held before has no influence on the page it leaves, and
    rendering the same list a second time changes nothing. *)
Theorem renderJobs_replaces_output
    (jobs : list (gmap string value)) (p : page) (html display : string) :
  renderJobs jobs
      (set_jobCardsContainer_innerHTML html (set_noResultsDiv_display display p)) =
    renderJobs jobs p ∧
  renderJobs jobs (snd (renderJobs jobs p)) = renderJobs jobs p.
Proof.
  rewrite !renderJobs_run.
  destruct (length jobs =? 0); [done |].
  by destruct (mapM createJobCardHTML jobs).
Qed.

(** ** More on the filter *)

Section MoreFilterFacts.

Implicit Types (job : gmap string value) (jobs : list (gmap string value)) (s w : string).

(** What [filterM] returns was in the list, in order, and passed the test. *)
Lemma filterM_kept {A : Type} (f : A → completion bool) (xs result : list A) :
  filterM f xs = Normal result →
  sublist result xs ∧ Forall (λ x, f x = Normal true) result.
Proof.
  revert result. induction xs as [|x xs IH]; intros result; simpl.
  - intros [= <-]. split; constructor.
  - destruct (f x) as [keep | e] eqn:Hx; simpl; [| done].
    destruct (filterM f xs) as [rest | e]; simpl; [| done].
    destruct (IH rest eq_refl) as [Hsub Hall].
    destruct keep; intros [= <-].
    + split; by constructor.
    + split; [by constructor | done].
Qed.

Lemma sublist_Forall {A : Type} (P : A → Prop) (xs ys : list A) :
  sublist xs ys → Forall P ys → Forall P xs.
Proof.
  induction 1 as [|x xs ys _ IH | x xs ys _ IH]; intros Hall; [done | |].
  - apply Forall_cons in Hall as [Hx Hys]. constructor; auto.
  - apply Forall_cons in Hall as [_ Hys]. auto.
Qed.

Lemma filterM_all_true {A : Type} (f : A → completion bool) (xs : list A) :
  Forall (λ x, f x = Normal true) xs → filterM f xs = Normal xs.
Proof.
  induction 1 as [|x xs Hx _ IH]; simpl; [done |]. by rewrite Hx, IH.
Qed.

(** When the only exception the test can throw is [e], one throwing element
    makes the whole call throw [e]. *)
Lemma filterM_throws {A : Type} (f : A → completion bool) (e : exn) (xs : list A) :
  (∀ x, f x = Throw e ∨ ∃ keep, f x = Normal keep) →
  Exists (λ x, f x = Throw e) xs →
  filterM f xs = Throw e.
Proof.
  intros Honly. induction 1 as [x xs Hx | x xs _ IH]; simpl.
  - by rewrite Hx.
  - rewrite IH. by destruct (Honly x) as [-> | [keep ->]].
Qed.

Lemma inCategory_cases category job :
  inCategory category job = Throw (undefinedRead "trim") ∨
  ∃ keep, inCategory category job = Normal keep.
Proof.
  unfold inCategory. destruct (prop job "type"); simpl; [by left | right; by eexists].
Qed.






Lemma filteredJobs_run jobs category text :
  filteredJobs jobs category text =
    match categoryStage category jobs with
    | Normal afterCategory => searchStage (searchTermOf text) afterCategory
    | Throw e => Throw e
    end.
Proof. reflexivity. Qed.


Lemma trimEnd_allWhiteSpace w : allWhiteSpace w = true → trimEnd w = "".
Proof.
  induction w as [|c w IH]; simpl; [done |].
  intros [Hc Hw]%andb_prop. by rewrite IH, Hc.
Qed.

Lemma trimStart_app_whiteSpace w s :
  allWhiteSpace w = true → trimStart (w +:+ s) = trimStart s.
Proof.
  induction w as [|c w IH]; [done |].
  intros [Hc Hw]%andb_prop.
  change (trimStart (String c (w +:+ s)) = trimStart s).
  simpl. rewrite Hc. auto.
Qed.

Lemma trimEnd_app_whiteSpace s w :
  allWhiteSpace w = true → trimEnd (s +:+ w) = trimEnd s.
Proof.
  intros Hw. induction s as [|c s IH].
  - simpl. by apply trimEnd_allWhiteSpace.
  - change (trimEnd (String c (s +:+ w)) = trimEnd (String c s)).
    simpl. by rewrite IH.
Qed.

Lemma trim_app_whiteSpace s w : allWhiteSpace w = true → trim (s +:+ w) = trim s.
Proof.
  intros Hw. unfold trim. induction s as [|c s IH].
  - simpl. by rewrite trimStart_allWhiteSpace.
  - change (trimEnd (trimStart (String c (s +:+ w))) = trimEnd (trimStart (String c s))).
    simpl. destruct (isWhiteSpace c); [done |].
    by apply (trimEnd_app_whiteSpace (String c s)).
Qed.

(** White space around a text does not survive [trim]. *)
Lemma trim_padded w1 s w2 :
  allWhiteSpace w1 = true → allWhiteSpace w2 = true →
  trim (w1 +:+ s +:+ w2) = trim s.
Proof.
  intros Hw1 Hw2. rewrite <- (trim_app_whiteSpace s w2) by done.
  unfold trim. by rewrite trimStart_app_whiteSpace.
Qed.


Lemma filter_comm {A : Type} (f g : A → bool) (xs : list A) :
  List.filter f (List.filter g xs) = List.filter g (List.filter f xs).
Proof.
  induction xs as [|x xs IH]; simpl; [done |].
  destruct (f x) eqn:Hf, (g x) eqn:Hg; simpl; rewrite ?Hf, ?Hg, IH; done.
Qed.

End MoreFilterFacts.



(** X11. Filtering is idempotent: running the filter again on its own
    result, with the same category and search text, returns that result. *)
Theorem filteredJobs_idempotent
    (jobs result : list (gmap string value)) (category text : string) :
  filteredJobs jobs category text = Normal result →
  filteredJobs result category text = Normal result.
Proof.
  rewrite !filteredJobs_run.
  destruct (categoryStage category jobs) as [afterCategory | e] eqn:Hcategory; [| done].
  intros Hsearch.
  assert (sublist result afterCategory) as Hsub.
  { unfold searchStage in Hsearch.
    destruct (negb (String.eqb (searchTermOf text) "")).
    - by apply filterM_kept in Hsearch as [? _].
    - by injection Hsearch as <-. }
  assert (categoryStage category result = Normal result) as ->.
  { unfold categoryStage in *.
    destruct (negb (String.eqb category "All")); [| done].
    apply filterM_all_true. apply filterM_kept in Hcategory as [_ Hall].
    by eapply sublist_Forall. }
  unfold searchStage in *.
  destruct (negb (String.eqb (searchTermOf text) "")); [| done].
  apply filterM_all_true. by apply filterM_kept in Hsearch as [_ Hall].
Qed.

Lemma filteredJobs_idempotent_witness :
  filteredJobs [devJob] "WFH" "dev" = Normal [devJob].
Proof.
  apply (filteredJobs_idempotent [devJob; typistJob] [devJob] "WFH" "dev").
  reflexivity.
Defined.

(** X12. The filter throws only where it reads a missing field.  Under the
    category [All] and a search text of white space it reads nothing and
    returns the record set as it is, whatever the records hold; under any
    other category one record without a type makes the call throw the
    [TypeError] of reading [trim] off [undefined], whatever the search
    text. *)
Theorem filteredJobs_missing_type
    (jobs : list (gmap string value)) (category text : string) :
  (allWhiteSpace text = true → filteredJobs jobs "All" text = Normal jobs) ∧
  (category ≠ "All" →
   Exists (λ job, prop job "type" = undefined) jobs →
   filteredJobs jobs category text = Throw (undefinedRead "trim")).
Proof.
  split.
  - intros Hws. rewrite filteredJobs_run. simpl.
    unfold searchStage. by rewrite searchTermOf_allWhiteSpace.
  - intros Hcategory Hmissing. rewrite filteredJobs_run. unfold categoryStage.
    destruct (String.eqb_spec category "All") as [? | _]; [done |]. simpl.
    rewrite (filterM_throws _ (undefinedRead "trim")); [done | |].
    + intros job. apply inCategory_cases.
    + eapply Exists_impl; [exact Hmissing |].
      intros job Htype. unfold inCategory. by rewrite Htype.
Qed.

Lemma filteredJobs_missing_type_witness :
  filteredJobs [devJob; delete "type" typistJob] "WFH" "" = Throw (undefinedRead "trim").
Proof.
  apply (filteredJobs_missing_type [devJob; delete "type" typistJob] "WFH" "").
  - discriminate.
  - apply Exists_cons_tl, Exists_cons_hd. reflexivity.
Defined.





(** X15. On records that carry the five searched fields the two stages
    commute: the result for a category and a search text is the category
    stage applied to the result of the same search under [All]. *)
Theorem category_and_search_commute
    (jobs : list (gmap string value)) (category text : string) :
  Forall (λ job, hasSearchedFields job = true) jobs →
  filteredJobs jobs category text =
    (found <- filteredJobs jobs "All" text ;; categoryStage category found).
Proof.
  intros Hfields.
  assert (∀ xs, Forall (λ job, hasSearchedFields job = true) xs →
                categoryStage category xs = Normal (categoryFiltered category xs)) as Hstage.
  { intros xs Hxs. apply categoryStage_typed.
    eapply Forall_impl; [exact Hxs |]. intros job. apply hasSearchedFields_type. }
  assert (∀ xs, Forall (λ job, hasSearchedFields job = true) xs →
                searchStage (searchTermOf text) xs =
                  Normal (if String.eqb (searchTermOf text) "" then xs
                          else List.filter (someFieldIncludes (searchTermOf text)) xs))
    as Hsearch.
  { intros xs Hxs. unfold searchStage.
    destruct (String.eqb (searchTermOf text) ""); simpl; [done |].
    apply filterM_total. eapply Forall_impl; [exact Hxs |].
    intros job. apply matchesSearch_total. }
  assert (Forall (λ job, hasSearchedFields job = true) (categoryFiltered category jobs))
    as Hfields'.
  { unfold categoryFiltered. destruct (String.eqb category "All"); [done |].
    by apply Forall_filter. }
  rewrite !filteredJobs_run. rewrite (Hstage jobs) by done.
  change (categoryStage "All" jobs) with (Normal (A := list (gmap string value)) jobs).
  cbv iota. rewrite !Hsearch by done. simpl.
  destruct (String.eqb (searchTermOf text) "").
  - by rewrite Hstage.
  - rewrite Hstage by (by apply Forall_filter).
    unfold categoryFiltered. destruct (String.eqb category "All"); [done |].
    by rewrite filter_comm.
Qed.

Lemma category_and_search_commute_witness :
  filteredJobs [devJob; typistJob] "WFH" "dev" =
    (found <- filteredJobs [devJob; typistJob] "All" "dev" ;; categoryStage "WFH" found).
Proof.
  apply (category_and_search_commute [devJob; typistJob] "WFH" "dev").
  repeat constructor.
Defined.

Lemma renderJobs_frame (jobs : list (gmap string value)) (p : page) :
  allJobs (snd (renderJobs jobs p)) = allJobs p ∧
  currentFilter (snd (renderJobs jobs p)) = currentFilter p ∧
  jobSearchInput_value (snd (renderJobs jobs p)) = jobSearchInput_value p ∧
  filterCategoriesDiv_innerHTML (snd (renderJobs jobs p)) = filterCategoriesDiv_innerHTML p.
Proof.
  rewrite renderJobs_run. destruct (length jobs =? 0); [done |].
  by destruct (mapM createJobCardHTML jobs).
Qed.

Lemma renderJobs_indicator (jobs : list (gmap string value)) (p : page) :
  fst (renderJobs jobs p) = Normal tt →
  noResultsDiv_display (snd (renderJobs jobs p)) = "block" ↔ jobs = [].
Proof.
  rewrite renderJobs_run. destruct jobs as [|job jobs]; [done |].
  change (length (job :: jobs) =? 0) with false. cbv iota.
  by destruct (mapM createJobCardHTML (job :: jobs)).
Qed.

(** X16. [filterAndSearchJobs] never changes the record set, the active
    category, the search box or the filter buttons.  When the filter itself
    throws, the page is left exactly as it was; when the call completes, the
    no-results indicator is shown exactly when the filter returned no
    record. *)
Theorem filterAndSearchJobs_frame (p : page) :
  allJobs (snd (filterAndSearchJobs p)) = allJobs p ∧
  currentFilter (snd (filterAndSearchJobs p)) = currentFilter p ∧
  jobSearchInput_value (snd (filterAndSearchJobs p)) = jobSearchInput_value p ∧
  filterCategoriesDiv_innerHTML (snd (filterAndSearchJobs p)) =
    filterCategoriesDiv_innerHTML p ∧
  (∀ e, filteredJobs (allJobs p) (currentFilter p) (jobSearchInput_value p) = Throw e →
        filterAndSearchJobs p = (Throw e, p)) ∧
  (∀ result,
     filteredJobs (allJobs p) (currentFilter p) (jobSearchInput_value p) = Normal result →
     fst (filterAndSearchJobs p) = Normal tt →
     (noResultsDiv_display (snd (filterAndSearchJobs p)) = "block" ↔ result = [])).
Proof.
  rewrite filterAndSearchJobs_run.
  destruct (filteredJobs (allJobs p) (currentFilter p) (jobSearchInput_value p))
    as [result | e].
  - destruct (renderJobs_frame result p) as (H1 & H2 & H3 & H4).
    split_and!; try done.
    intros r [= <-]. apply renderJobs_indicator.
  - split_and!; try done. by intros e' [= <-].
Qed.

Lemma filterAndSearchJobs_frame_witness :
  filterAndSearchJobs (Page [delete "type" devJob] "WFH" "" "old cards" "" "none") =
    (Throw (undefinedRead "trim"), Page [delete "type" devJob] "WFH" "" "old cards" "" "none").
Proof.
  apply (filterAndSearchJobs_frame (Page [delete "type" devJob] "WFH" "" "old cards" "" "none")).
  reflexivity.
Defined.

(** ** More on the filter buttons *)

Section MoreSetupFacts.

Implicit Types (job : gmap string value) (jobs : list (gmap string value))
  (xs seen : list string) (p : page).

Lemma mapM_total {A B : Type} (f : A → completion B) (g : A → B) (xs : list A) :
  Forall (λ x, f x = Normal (g x)) xs → mapM f xs = Normal (map g xs).
Proof.
  induction 1 as [|x xs Hx _ IH]; simpl; [done |]. by rewrite Hx, IH.
Qed.


Lemma mapM_completes {A B : Type} (f : A → completion B) (xs : list A) :
  Forall (λ x, ∃ y, f x = Normal y) xs →
  ∃ ys, mapM f xs = Normal ys ∧ length ys = length xs.
Proof.
  induction 1 as [|x xs [y Hx] _ (ys & IH & Hlen)]; simpl; [by exists [] |].
  exists (y :: ys). rewrite Hx, IH. simpl. by rewrite Hlen.
Qed.

(** The accumulation behind [distinct], from any set of tokens seen. *)
Lemma distinct_from seen xs :
  NoDup seen →
  NoDup (fold_left (λ acc x, if bool_decide (x ∈ acc) then acc else acc ++ [x]) xs seen) ∧
  (∀ x, x ∈ fold_left (λ acc x, if bool_decide (x ∈ acc) then acc else acc ++ [x]) xs seen
        ↔ x ∈ seen ∨ x ∈ xs) ∧
  ∃ tail,
    fold_left (λ acc x, if bool_decide (x ∈ acc) then acc else acc ++ [x]) xs seen
      = seen ++ tail ∧
    sublist tail xs.
Proof.
  revert seen. induction xs as [|y xs IH]; intros seen Hseen; simpl.
  - split; [done |]. split.
    + intros x. rewrite elem_of_nil. tauto.
    + exists []. by rewrite app_nil_r.
  - case_bool_decide as Hy.
    + destruct (IH seen Hseen) as (Hnodup & Hmem & tail & Heq & Hsub).
      split; [done |]. split.
      * intros x. rewrite Hmem, elem_of_cons.
        split; [tauto |]. intros [? | [-> | ?]]; tauto.
      * exists tail. split; [done | by constructor].
    + assert (NoDup (seen ++ [y])) as Hseen'.
      { apply NoDup_app. split; [done |]. split; [| apply NoDup_singleton].
        intros x Hx ->%list_elem_of_singleton. done. }
      destruct (IH (seen ++ [y]) Hseen') as (Hnodup & Hmem & tail & Heq & Hsub).
      split; [done |]. split.
      * intros x. rewrite Hmem, elem_of_app, list_elem_of_singleton, elem_of_cons. tauto.
      * exists (y :: tail). split; [by rewrite Heq, <- app_assoc | by constructor].
Qed.

Lemma distinct_spec xs :
  NoDup (distinct xs) ∧ (∀ x, x ∈ distinct xs ↔ x ∈ xs) ∧ sublist (distinct xs) xs.
Proof.
  destruct (distinct_from [] xs (NoDup_nil_2)) as (Hnodup & Hmem & tail & Heq & Hsub).
  unfold distinct. split; [done |]. split.
  - intros x. rewrite Hmem, elem_of_nil. tauto.
  - by rewrite Heq.
Qed.

(** What comes later in the list never moves what was kept before. *)
Lemma distinct_app xs ys : ∃ tail, distinct (xs ++ ys) = distinct xs ++ tail.
Proof.
  unfold distinct. rewrite fold_left_app.
  destruct (distinct_spec xs) as (Hnodup & _).
  destruct (distinct_from (distinct xs) ys Hnodup) as (_ & _ & tail & Heq & _).
  by exists tail.
Qed.

Lemma setupFilters_run p :
  setupFilters p =
    match mapM (λ job, t <- receiver "trim" (prop job "type") ;; Normal (trim t)) (allJobs p) with
    | Normal types =>
        (Normal tt,
         set_filterCategoriesDiv_innerHTML
           (join (map filterButtonHTML ("All" :: distinct types))) p)
    | Throw e => (Throw e, p)
    end.
Proof.
  unfold setupFilters, bind, read, lift, write.
  by destruct (mapM _ (allJobs p)).
Qed.


End MoreSetupFacts.

(** X17. The categories offered are the record types without repetition:
    [distinct] returns each element of its argument once and keeps no
    other; the elements come in the order of their first occurrence, since
    what follows in the list only appends to what was kept. *)
Theorem distinct_first_occurrences (xs : list string) :
  NoDup (distinct xs) ∧
  (∀ x, x ∈ distinct xs ↔ x ∈ xs) ∧
  sublist (distinct xs) xs ∧
  (∀ ys, ∃ tail, distinct (xs ++ ys) = distinct xs ++ tail).
Proof.
  destruct (distinct_spec xs) as (Hnodup & Hmem & Hsub).
  split_and!; try done. apply distinct_app.
Qed.





(** ** More on the controller *)

Section MoreControllerFacts.

Implicit Types (p : page) (jobs : list (gmap string value)).

(** What the start-up does once at least one valid record is there. *)
Lemma startBoard_run p :
  tryCatch (setupFilters ;;; jobs <== read allJobs ;; renderJobs jobs)
    (fun error => write (set_jobCardsContainer_innerHTML (errorBlockHTML (message error)))) p =
    match setupFilters p with
    | (Normal _, p1) =>
        match renderJobs (allJobs p1) p1 with
        | (Normal _, p2) => (Normal tt, p2)
        | (Throw e, p2) =>
            (Normal tt, set_jobCardsContainer_innerHTML (errorBlockHTML (message e)) p2)
        end
    | (Throw e, p1) =>
        (Normal tt, set_jobCardsContainer_innerHTML (errorBlockHTML (message e)) p1)
    end.
Proof.
  unfold tryCatch, bind, read, write.
  destruct (setupFilters p) as [[[] | e] p1]; [| done].
  by destruct (renderJobs (allJobs p1) p1) as [[[] | e] p2].
Qed.

Lemma setupFilters_allJobs p : allJobs (snd (setupFilters p)) = allJobs p.
Proof. rewrite setupFilters_run. by destruct (mapM _ (allJobs p)). Qed.

Lemma setupFilters_frame p :
  currentFilter (snd (setupFilters p)) = currentFilter p ∧
  jobSearchInput_value (snd (setupFilters p)) = jobSearchInput_value p.
Proof. rewrite setupFilters_run. by destruct (mapM _ (allJobs p)). Qed.

Lemma setupFilters_typed p :
  Forall (λ job, isString (prop job "type") = true) (allJobs p) →
  setupFilters p =
    (Normal tt,
     set_filterCategoriesDiv_innerHTML
       (join (map filterButtonHTML ("All" :: distinct (map trimmedType (allJobs p))))) p).
Proof.
  intros Htyped. rewrite setupFilters_run, (mapM_total _ trimmedType); [done |].
  eapply Forall_impl; [exact Htyped |]. intros job. unfold trimmedType.
  by destruct (prop job "type").
Qed.

Lemma createJobCardHTML_renderable (job : gmap string value) :
  isRenderable job = true → ∃ html, createJobCardHTML job = Normal html.
Proof.
  unfold isRenderable.
  destruct (prop job "type") as [|t] eqn:Htype; [done |].
  destruct (prop job "description") as [|d] eqn:Hdescription; [done |].
  intros _. eexists. by apply (createJobCardHTML_normal job t d).
Qed.

End MoreControllerFacts.

(** X20. [initJobBoard] never throws: whatever the fetch delivers, every
    failure ends in the handler.  The container it leaves holds either an
    error block or the joined cards of all the records kept, the
    no-results indicator then being hidden; never a part of the cards. *)
Theorem initJobBoard_never_throws (response : fetched) (p : page) :
  fst (initJobBoard response p) = Normal tt ∧
  ((∃ e, jobCardsContainer_innerHTML (snd (initJobBoard response p)) =
           errorBlockHTML (message e)) ∨
   (∃ cards,
      allJobs (snd (initJobBoard response p)) ≠ [] ∧
      mapM createJobCardHTML (allJobs (snd (initJobBoard response p))) = Normal cards ∧
      jobCardsContainer_innerHTML (snd (initJobBoard response p)) = join cards ∧
      noResultsDiv_display (snd (initJobBoard response p)) = "none")).
Proof.
  destruct response as [e | ok status body].
  { split; [done |]. left. by exists e. }
  destruct ok; [| split; [done |]; left;
                  by exists (Error ("HTTP error! status: " +:+ pretty status))].
  destruct body as [csvText | e].
  - rewrite initJobBoard_ok. cbv zeta.
    destruct (length (List.filter isValidJob (parseCSV csvText)) =? 0) eqn:Hlen.
    { split; [done |]. left. by exists (Error emptyDataMessage). }
    rewrite startBoard_run.
    set (p1 := set_allJobs (List.filter isValidJob (parseCSV csvText))
                 (set_allJobs (parseCSV csvText) p)).
    pose proof (setupFilters_allJobs p1) as Hjobs.
    destruct (setupFilters p1) as [[[] | e] p2]; simpl in Hjobs.
    + rewrite Hjobs. change (allJobs p1) with (List.filter isValidJob (parseCSV csvText)).
      rewrite renderJobs_run, Hlen.
      destruct (mapM createJobCardHTML (List.filter isValidJob (parseCSV csvText)))
        as [cards | e] eqn:Hcards; simpl.
      * split; [done |]. right. exists cards. rewrite Hjobs.
        change (allJobs p1) with (List.filter isValidJob (parseCSV csvText)).
        split_and!; try done. intros Hempty. by rewrite Hempty in Hlen.
      * split; [done |]. left. by exists e.
    + split; [done |]. left. by exists e.
  - split; [done |]. left. by exists e.
Qed.

(** X21. The three failures before parsing write the container and nothing
    else: a rejected fetch and a rejected body show the message of their
    exception, a response that is not [ok] shows its status and its body is
    not read. *)
Theorem initJobBoard_fetch_failures (p : page) (e : exn) (status : nat)
    (body : completion string) :
  initJobBoard (Rejected e) p =
    (Normal tt, set_jobCardsContainer_innerHTML (errorBlockHTML (message e)) p) ∧
  initJobBoard (Response true status (Throw e)) p =
    (Normal tt, set_jobCardsContainer_innerHTML (errorBlockHTML (message e)) p) ∧
  initJobBoard (Response false status body) p =
    (Normal tt,
     set_jobCardsContainer_innerHTML
       (errorBlockHTML ("HTTP error! status: " +:+ pretty status)) p).
Proof. done. Qed.

(** X22. After a response that is [ok] and has a body, whatever happens
    next, the record set is the valid records of the parsed body, in their
    order: each has a title that is a string, not empty, and not [jobtitle]
    up to case.  The active category and the search box are as before. *)
Theorem initJobBoard_keeps_valid_records (status : nat) (csvText : string) (p : page) :
  allJobs (snd (initJobBoard (Response true status (Normal csvText)) p)) =
    List.filter isValidJob (parseCSV csvText) ∧
  Forall (λ job, ∃ title, prop job "jobTitle" = str title ∧ title ≠ "" ∧
                          toLowerCase title ≠ "jobtitle")
    (allJobs (snd (initJobBoard (Response true status (Normal csvText)) p))) ∧
  sublist (allJobs (snd (initJobBoard (Response true status (Normal csvText)) p)))
    (parseCSV csvText) ∧
  currentFilter (snd (initJobBoard (Response true status (Normal csvText)) p)) =
    currentFilter p ∧
  jobSearchInput_value (snd (initJobBoard (Response true status (Normal csvText)) p)) =
    jobSearchInput_value p.
Proof.
  assert (allJobs (snd (initJobBoard (Response true status (Normal csvText)) p)) =
            List.filter isValidJob (parseCSV csvText) ∧
          currentFilter (snd (initJobBoard (Response true status (Normal csvText)) p)) =
            currentFilter p ∧
          jobSearchInput_value (snd (initJobBoard (Response true status (Normal csvText)) p)) =
            jobSearchInput_value p) as (Hjobs & Hfilter & Hinput).
  { rewrite initJobBoard_ok. cbv zeta.
    destruct (length (List.filter isValidJob (parseCSV csvText)) =? 0); [done |].
    rewrite startBoard_run.
    set (p1 := set_allJobs (List.filter isValidJob (parseCSV csvText))
                 (set_allJobs (parseCSV csvText) p)).
    pose proof (setupFilters_allJobs p1) as Hjobs.
    pose proof (setupFilters_frame p1) as [Hfilter Hinput].
    destruct (setupFilters p1) as [[[] | e] p2]; simpl in *; [| done].
    destruct (renderJobs_frame (allJobs p2) p2) as (H1 & H2 & H3 & _).
    destruct (renderJobs (allJobs p2) p2) as [[[] | e] p3]; simpl in *;
      rewrite ?H1, ?H2, ?H3; done. }
  rewrite Hjobs. split_and!; try done.
  - apply Forall_forall. intros job [_ Hvalid]%elem_of_filter.
    by apply isValidJob_spec.
  - apply filter_sublist.
Qed.

(** The page of a start-up that succeeds. *)
Lemma initJobBoard_renders (status : nat) (csvText : string) (p : page) :
  List.filter isValidJob (parseCSV csvText) ≠ [] →
  Forall (λ job, isRenderable job = true) (List.filter isValidJob (parseCSV csvText)) →
  ∃ cards,
    mapM createJobCardHTML (List.filter isValidJob (parseCSV csvText)) = Normal cards ∧
    length cards = length (List.filter isValidJob (parseCSV csvText)) ∧
    initJobBoard (Response true status (Normal csvText)) p =
      (Normal tt,
       Page (List.filter isValidJob (parseCSV csvText))
            (currentFilter p)
            (jobSearchInput_value p)
            (join cards)
            (join (map filterButtonHTML
               ("All" :: distinct (map trimmedType (List.filter isValidJob (parseCSV csvText))))))
            "none").
Proof.
  intros Hnonempty Hrenderable.
  destruct (mapM_completes createJobCardHTML (List.filter isValidJob (parseCSV csvText)))
    as (cards & Hcards & Hlen).
  { eapply Forall_impl; [exact Hrenderable |]. intros job.
    apply createJobCardHTML_renderable. }
  exists cards. split; [done |]. split; [done |].
  rewrite initJobBoard_ok. cbv zeta.
  destruct (Nat.eqb_spec (length (List.filter isValidJob (parseCSV csvText))) 0) as [H0 | _].
  { by destruct (List.filter isValidJob (parseCSV csvText)). }
  rewrite startBoard_run.
  set (p1 := set_allJobs (List.filter isValidJob (parseCSV csvText))
               (set_allJobs (parseCSV csvText) p)).
  rewrite (setupFilters_typed p1).
  2: { eapply Forall_impl; [exact Hrenderable |]. intros job. unfold isRenderable.
       by intros [? _]%andb_prop. }
  change (allJobs (set_filterCategoriesDiv_innerHTML _ p1))
    with (List.filter isValidJob (parseCSV csvText)).
  rewrite renderJobs_run, Hcards.
  destruct (Nat.eqb_spec (length (List.filter isValidJob (parseCSV csvText))) 0) as [H0 | _].
  { by destruct (List.filter isValidJob (parseCSV csvText)). }
  reflexivity.
Qed.



(** ** The menu toggle *)

Section MenuFacts.

Implicit Types (token t : string) (classes : list string) (m : menu).

Lemma contains_spec token classes :
  ClassList.contains token classes = true ↔ token ∈ classes.
Proof. unfold ClassList.contains. apply bool_decide_eq_true. Qed.

Lemma elem_of_add token t classes :
  t ∈ ClassList.add token classes ↔ t = token ∨ t ∈ classes.
Proof.
  unfold ClassList.add.
  destruct (ClassList.contains token classes) eqn:Hin.
  - apply contains_spec in Hin. split; [tauto |]. by intros [-> | ?].
  - rewrite elem_of_app, list_elem_of_singleton. tauto.
Qed.

Lemma elem_of_remove token t classes :
  t ∈ ClassList.remove token classes ↔ t ≠ token ∧ t ∈ classes.
Proof.
  unfold ClassList.remove. rewrite elem_of_filter, negb_true_iff.
  destruct (String.eqb_spec t token); split; intros [? ?]; done.
Qed.

Lemma elem_of_toggle token t classes :
  t ∈ ClassList.toggle token classes ↔
  (t = token ∧ token ∉ classes) ∨ (t ≠ token ∧ t ∈ classes).
Proof.
  unfold ClassList.toggle.
  destruct (ClassList.contains token classes) eqn:Hin.
  - apply contains_spec in Hin. rewrite elem_of_remove. split; [tauto |].
    intros [[_ ?] | ?]; done.
  - assert (token ∉ classes) as Hout.
    { intros Hin'%contains_spec. congruence. }
    rewrite elem_of_add. split.
    + intros [-> | Ht]; [by left |]. right. split; [| done]. by intros ->.
    + intros [[-> _] | [_ ?]]; tauto.
Qed.

Lemma NoDup_add token classes : NoDup classes → NoDup (ClassList.add token classes).
Proof.
  intros Hnodup. unfold ClassList.add.
  destruct (ClassList.contains token classes) eqn:Hin; [done |].
  apply NoDup_app. split; [done |]. split; [| apply NoDup_singleton].
  intros t Ht ->%list_elem_of_singleton. apply contains_spec in Ht. congruence.
Qed.

Lemma NoDup_remove token classes : NoDup classes → NoDup (ClassList.remove token classes).
Proof.
  intros Hnodup. unfold ClassList.remove.
  eapply sublist_NoDup; [done | apply filter_sublist].
Qed.

(** What one click does to the two class lists. *)
Lemma menuToggleClick_classes m :
  (∀ t, t ∈ navMenu_classList (menuToggleClick m) ↔
        (t = "active" ∧ "active" ∉ navMenu_classList m) ∨
        (t ≠ "active" ∧ t ∈ navMenu_classList m)) ∧
  (∀ t, t ∈ icon_classList (menuToggleClick m) ↔
        (t = "fa-times" ∧ "active" ∉ navMenu_classList m) ∨
        (t = "fa-bars" ∧ "active" ∈ navMenu_classList m) ∨
        (t ≠ "fa-times" ∧ t ≠ "fa-bars" ∧ t ∈ icon_classList m)).
Proof.
  unfold menuToggleClick.
  destruct (ClassList.contains "active" (ClassList.toggle "active" (navMenu_classList m)))
    eqn:Hactive; simpl.
  - apply contains_spec, elem_of_toggle in Hactive as [[_ Hout] | [? _]]; [| done].
    split; [intros t; apply elem_of_toggle |].
    intros t. rewrite elem_of_add, elem_of_remove. split.
    + intros [-> | [? ?]]; [by left |].
      destruct (decide (t = "fa-times")) as [-> | ?]; [by left | by right; right].
    + intros [[-> _] | [[_ ?] | (? & ? & ?)]]; [by left | done | by right].
  - assert ("active" ∈ navMenu_classList m) as Hin.
    { destruct (decide ("active" ∈ navMenu_classList m)) as [? | Hout]; [done |].
      assert ("active" ∈ ClassList.toggle "active" (navMenu_classList m)) as Habsurd
        by (apply elem_of_toggle; by left).
      apply contains_spec in Habsurd. congruence. }
    split; [intros t; apply elem_of_toggle |].
    intros t. rewrite elem_of_add, elem_of_remove. split.
    + intros [-> | [? ?]]; [by right; left |].
      destruct (decide (t = "fa-bars")) as [-> | ?]; [by right; left | by right; right].
    + intros [[_ ?] | [[-> _] | (? & ? & ?)]]; [done | by left | by right].
Qed.

Lemma menuToggleClick_NoDup m :
  NoDup (navMenu_classList m) → NoDup (icon_classList m) →
  NoDup (navMenu_classList (menuToggleClick m)) ∧ NoDup (icon_classList (menuToggleClick m)).
Proof.
  intros Hnav Hicon. unfold menuToggleClick.
  assert (NoDup (ClassList.toggle "active" (navMenu_classList m))) as Hnav'.
  { unfold ClassList.toggle. destruct (ClassList.contains "active" (navMenu_classList m));
      [by apply NoDup_remove | by apply NoDup_add]. }
  destruct (ClassList.contains "active" (ClassList.toggle "active" (navMenu_classList m)));
    simpl; (split; [done |]); by apply NoDup_add, NoDup_remove.
Qed.

End MenuFacts.

(** X24. After every click on the menu toggle the icon agrees with the menu:
    the menu has flipped its [active] class, the icon carries [fa-times]
    exactly when the menu is active and [fa-bars] exactly when it is not,
    never both, and no other class of the menu or of the icon is touched. *)
Theorem menuToggleClick_icon_follows_menu (m : menu) :
  ("active" ∈ navMenu_classList (menuToggleClick m) ↔ "active" ∉ navMenu_classList m) ∧
  ("fa-times" ∈ icon_classList (menuToggleClick m) ↔
     "active" ∈ navMenu_classList (menuToggleClick m)) ∧
  ("fa-bars" ∈ icon_classList (menuToggleClick m) ↔
     "active" ∉ navMenu_classList (menuToggleClick m)) ∧
  ¬ ("fa-bars" ∈ icon_classList (menuToggleClick m) ∧
     "fa-times" ∈ icon_classList (menuToggleClick m)) ∧
  (∀ t, t ≠ "active" →
     (t ∈ navMenu_classList (menuToggleClick m) ↔ t ∈ navMenu_classList m)) ∧
  (∀ t, t ≠ "fa-bars" → t ≠ "fa-times" →
     (t ∈ icon_classList (menuToggleClick m) ↔ t ∈ icon_classList m)).
Proof.
  destruct (menuToggleClick_classes m) as [Hnav Hicon].
  assert ("active" ∈ navMenu_classList (menuToggleClick m) ↔ "active" ∉ navMenu_classList m)
    as Hflip.
  { rewrite Hnav. split; [by intros [[_ ?] | [? _]] | by left]. }
  assert ("fa-times" ∈ icon_classList (menuToggleClick m) ↔ "active" ∉ navMenu_classList m)
    as Htimes.
  { rewrite Hicon. split; [| by left].
    by intros [[_ ?] | [[? _] | (? & _)]]. }
  assert ("fa-bars" ∈ icon_classList (menuToggleClick m) ↔ "active" ∈ navMenu_classList m)
    as Hbars.
  { rewrite Hicon. split; [| by right; left].
    by intros [[? _] | [[_ ?] | (_ & ? & _)]]. }
  split_and!.
  - done.
  - by rewrite Htimes, Hflip.
  - rewrite Hbars, Hflip.
    destruct (decide ("active" ∈ navMenu_classList m)); tauto.
  - rewrite Hbars, Htimes. tauto.
  - intros t Ht. rewrite Hnav. split; [by intros [[? _] | [_ ?]] | by right].
  - intros t Hbarst Htimest. rewrite Hicon. split.
    + by intros [[? _] | [[? _] | (_ & _ & ?)]].
    + by right; right.
Qed.

Lemma menuToggleClick_icon_follows_menu_witness :
  "fas" ∈ icon_classList (menuToggleClick (Menu ["nav-menu"] ["fas"; "fa-bars"])) ↔
  "fas" ∈ icon_classList (Menu ["nav-menu"] ["fas"; "fa-bars"]).
Proof.
  apply (menuToggleClick_icon_follows_menu (Menu ["nav-menu"] ["fas"; "fa-bars"]));
    discriminate.
Defined.

(** X25. Two clicks on the menu toggle give the menu back its classes, and
    from the first click on the icon has period two as well; class lists
    without repetition stay so. *)
Theorem menuToggleClick_twice (m : menu) (t : string) :
  (t ∈ navMenu_classList (menuToggleClick (menuToggleClick m)) ↔ t ∈ navMenu_classList m) ∧
  (t ∈ icon_classList (menuToggleClick (menuToggleClick (menuToggleClick m))) ↔
     t ∈ icon_classList (menuToggleClick m)) ∧
  (NoDup (navMenu_classList m) → NoDup (icon_classList m) →
   NoDup (navMenu_classList (menuToggleClick m)) ∧
   NoDup (icon_classList (menuToggleClick m))).
Proof.
  destruct (menuToggleClick_classes m) as [Hnav1 Hicon1].
  destruct (menuToggleClick_classes (menuToggleClick m)) as [Hnav2 Hicon2].
  destruct (menuToggleClick_classes (menuToggleClick (menuToggleClick m))) as [Hnav3 Hicon3].
  assert (∀ t, t ∈ navMenu_classList (menuToggleClick (menuToggleClick m)) ↔
               t ∈ navMenu_classList m) as Hnav.
  { intros t'. rewrite Hnav2, !Hnav1.
    destruct (decide (t' = "active")) as [-> | Hne];
      destruct (decide ("active" ∈ navMenu_classList m)); tauto. }
  split; [apply Hnav |]. split; [| apply menuToggleClick_NoDup].
  rewrite Hicon3, !Hnav, Hicon2, !Hnav1, !Hicon1.
  destruct (decide (t = "fa-times")) as [Htimes | Htimes];
    destruct (decide (t = "fa-bars")) as [Hbars | Hbars];
    destruct (decide ("active" ∈ navMenu_classList m));
    try (exfalso; congruence); tauto.
Qed.

Lemma menuToggleClick_twice_witness :
  NoDup (navMenu_classList (menuToggleClick (Menu ["nav-menu"] ["fas"; "fa-bars"]))) ∧
  NoDup (icon_classList (menuToggleClick (Menu ["nav-menu"] ["fas"; "fa-bars"]))).
Proof.
  apply (menuToggleClick_twice (Menu ["nav-menu"] ["fas"; "fa-bars"]) "active").
  - apply NoDup_singleton.
  - apply NoDup_cons. split; [| apply NoDup_singleton].
    intros [=]%list_elem_of_singleton.
Defined.

(** ** Lines, terms and statuses up to white space *)

Section PaddingFacts.

Implicit Types (s t w sub : string) (c : ascii).

Lemma isWhiteSpace_not_comma c : isWhiteSpace c = true → Ascii.eqb c "," = false.
Proof. by destruct c as [[] [] [] [] [] [] [] []]. Qed.

Lemma allWhiteSpace_no_comma w : allWhiteSpace w = true → occurs "," w = false.
Proof.
  induction w as [|c w IH]; simpl; [done |].
  intros [Hc Hw]%andb_prop. by rewrite isWhiteSpace_not_comma, IH.
Qed.

Lemma append_assoc s t w : (s +:+ t) +:+ w = s +:+ (t +:+ w).
Proof.
  induction s as [|c s IH]; [done |].
  change (String c ((s +:+ t) +:+ w) = String c (s +:+ (t +:+ w))). by rewrite IH.
Qed.

(** Text without the separator, put after a string, joins its last piece. *)
Lemma split_app_trailing c s w :
  occurs c w = false →
  ∃ init last, split c s = init ++ [last] ∧ split c (s +:+ w) = init ++ [last +:+ w].
Proof.
  intros Hw. induction s as [|e s (init & last & Hs & Hsw)].
  - exists [], "". split; [done |]. simpl. by apply split_absent.
  - change (String e s +:+ w) with (String e (s +:+ w)). simpl. rewrite Hs, Hsw.
    destruct (Ascii.eqb e c).
    + by exists ("" :: init), last.
    + destruct init as [|first init]; simpl.
      * by exists [], (String e last).
      * by exists (String e first :: init), last.
Qed.

(** Put before a string, it joins the first piece. *)
Lemma split_app_leading c s w :
  occurs c w = false →
  ∃ first rest, split c s = first :: rest ∧ split c (w +:+ s) = (w +:+ first) :: rest.
Proof.
  intros Hw. induction w as [|e w IH].
  - pose proof (split_nonempty c s). destruct (split c s) as [|first rest] eqn:Hs; [done |].
    by exists first, rest.
  - simpl in Hw. destruct (Ascii.eqb e c) eqn:Hec; [done |]. simpl in Hw.
    destruct (IH Hw) as (first & rest & Hs & Hws).
    exists first, rest. split; [done |].
    change (String e w +:+ s) with (String e (w +:+ s)). simpl. by rewrite Hec, Hws.
Qed.

Lemma cleanToken_leading w t : allWhiteSpace w = true → cleanToken (w +:+ t) = cleanToken t.
Proof.
  intros Hw. unfold cleanToken, trim. by rewrite trimStart_app_whiteSpace.
Qed.

Lemma cleanToken_trailing t w : allWhiteSpace w = true → cleanToken (t +:+ w) = cleanToken t.
Proof. intros Hw. unfold cleanToken. by rewrite trim_app_whiteSpace. Qed.

Lemma tokens_trailing s w :
  allWhiteSpace w = true →
  map cleanToken (split "," (s +:+ w)) = map cleanToken (split "," s).
Proof.
  intros Hw.
  destruct (split_app_trailing "," s w (allWhiteSpace_no_comma w Hw))
    as (init & last & -> & ->).
  rewrite !map_app. simpl. by rewrite cleanToken_trailing.
Qed.

Lemma tokens_leading s w :
  allWhiteSpace w = true →
  map cleanToken (split "," (w +:+ s)) = map cleanToken (split "," s).
Proof.
  intros Hw.
  destruct (split_app_leading "," s w (allWhiteSpace_no_comma w Hw))
    as (first & rest & -> & ->).
  simpl. by rewrite cleanToken_leading.
Qed.

Lemma tokens_padded w1 s w2 :
  allWhiteSpace w1 = true → allWhiteSpace w2 = true →
  map cleanToken (split "," (w1 +:+ s +:+ w2)) = map cleanToken (split "," s).
Proof. intros Hw1 Hw2. by rewrite tokens_leading, tokens_trailing. Qed.

Lemma prefix_spec sub s : String.prefix sub s = true ↔ ∃ post, s = sub +:+ post.
Proof.
  revert s. induction sub as [|c sub IH]; intros s.
  - split; [by exists s | intros _; by destruct s].
  - destruct s as [|d s]; simpl; [split; [done | by intros [post ?]] |].
    destruct (ascii_dec c d) as [-> | Hne].
    + rewrite IH. split; intros [post Hpost]; exists post.
      * by rewrite Hpost.
      * by injection Hpost.
    + split; [done |]. intros [post Hpost]. injection Hpost as ? ?. done.
Qed.

Lemma includes_spec s sub :
  includes s sub = true ↔ ∃ pre post, s = pre +:+ sub +:+ post.
Proof.
  induction s as [|c s IH].
  - change (includes "" sub) with (String.prefix sub "" || false).
    rewrite orb_false_r, prefix_spec. split.
    + intros [post ?]. by exists "", post.
    + intros ([|d pre] & post & Heq); [by exists post | done].
  - change (includes (String c s) sub) with (String.prefix sub (String c s) || includes s sub).
    rewrite orb_true_iff, prefix_spec, IH. split.
    + intros [[post ?] | (pre & post & ->)]; [by exists "", post |].
      by exists (String c pre), post.
    + intros ([|d pre] & post & Heq); [left; by exists post |].
      right. injection Heq as -> ->. by exists pre, post.
Qed.

(** A term that holds another is harder to find. *)
Lemma includes_trans s t sub :
  includes s t = true → includes t sub = true → includes s sub = true.
Proof.
  rewrite !includes_spec. intros (pre & post & ->) (pre' & post' & ->).
  exists (pre +:+ pre'), (post' +:+ post). by rewrite !append_assoc.
Qed.

Lemma someFieldIncludes_weaken term1 term2 (job : gmap string value) :
  includes term2 term1 = true →
  someFieldIncludes term2 job = true → someFieldIncludes term1 job = true.
Proof.
  intros Hterms. unfold someFieldIncludes. rewrite !existsb_exists.
  intros (key & Hkey & Hincludes). exists key. split; [done |].
  by eapply includes_trans.
Qed.

Lemma filter_sublist_weaken {A : Type} (f g : A → bool) (xs : list A) :
  (∀ x, f x = true → g x = true) →
  sublist (List.filter f xs) (List.filter g xs).
Proof.
  intros Himpl. induction xs as [|x xs IH]; simpl; [constructor |].
  destruct (f x) eqn:Hf.
  - rewrite (Himpl x Hf). by constructor.
  - destruct (g x); [by constructor | done].
Qed.

Lemma includes_empty s : includes "" s = true → s = "".
Proof. by destruct s. Qed.

(** The filter on records that carry the five searched fields. *)
Lemma filteredJobs_total (jobs : list (gmap string value)) category text :
  Forall (λ job, hasSearchedFields job = true) jobs →
  filteredJobs jobs category text =
    Normal (if String.eqb (searchTermOf text) "" then categoryFiltered category jobs
            else List.filter (someFieldIncludes (searchTermOf text))
                   (categoryFiltered category jobs)).
Proof.
  intros Hfields. rewrite filteredJobs_run, categoryStage_typed.
  - unfold searchStage. destruct (String.eqb (searchTermOf text) ""); simpl; [done |].
    apply filterM_total. eapply Forall_impl.
    + unfold categoryFiltered. destruct (String.eqb category "All"); [done |].
      by apply Forall_filter.
    + intros job. apply matchesSearch_total.
  - eapply Forall_impl; [exact Hfields |]. intros job. apply hasSearchedFields_type.
Qed.

Lemma filteredJobs_all_blank (jobs : list (gmap string value)) text :
  allWhiteSpace text = true → filteredJobs jobs "All" text = Normal jobs.
Proof.
  intros Hws. rewrite filteredJobs_run. simpl.
  unfold searchStage. by rewrite searchTermOf_allWhiteSpace.
Qed.

Lemma append_nonempty w s : s ≠ "" → w +:+ s ≠ "".
Proof. intros Hs. destruct w; [done | done]. Qed.

End PaddingFacts.

(** X26. White space at either end of a line, such as the carriage return
    a CRLF line break leaves before the line feed, changes neither the keys
    read off a header line nor the record read off a data line. *)
Theorem line_padding_ignored (keys : list string) (line before after : string) :
  allWhiteSpace before = true →
  allWhiteSpace after = true →
  rowJob keys (before +:+ line +:+ after) = rowJob keys line ∧
  keysOf (before +:+ line +:+ after) = keysOf line.
Proof.
  intros Hbefore Hafter. unfold rowJob, keysOf. by rewrite !tokens_padded.
Qed.

Lemma line_padding_ignored_witness :
  rowJob ["jobTitle"; "company"] ("" +:+ "Dev,Acme" +:+ String "013" "") =
    rowJob ["jobTitle"; "company"] "Dev,Acme".
Proof.
  apply (line_padding_ignored ["jobTitle"; "company"] "Dev,Acme" "" (String "013" ""));
    reflexivity.
Defined.

(** X27. A search term that holds another narrows its result: on records
    that carry the five searched fields, when the term of one search text
    occurs in the term of a second, the records the second search returns
    are a subsequence of those the first returns, under the same
    category. *)
Theorem longer_term_narrows
    (jobs : list (gmap string value)) (category text1 text2 : string) :
  Forall (λ job, hasSearchedFields job = true) jobs →
  includes (searchTermOf text2) (searchTermOf text1) = true →
  ∃ result1 result2,
    filteredJobs jobs category text1 = Normal result1 ∧
    filteredJobs jobs category text2 = Normal result2 ∧
    sublist result2 result1.
Proof.
  intros Hfields Hterms. do 2 eexists.
  split; [by apply filteredJobs_total |]. split; [by apply filteredJobs_total |].
  destruct (String.eqb_spec (searchTermOf text2) "") as [Hempty2 | _].
  - rewrite Hempty2 in Hterms. apply includes_empty in Hterms. by rewrite Hterms.
  - destruct (String.eqb (searchTermOf text1) ""); [apply filter_sublist |].
    apply filter_sublist_weaken. intros job. by apply someFieldIncludes_weaken.
Qed.

Lemma longer_term_narrows_witness :
  ∃ result1 result2,
    filteredJobs [devJob; typistJob] "All" "e" = Normal result1 ∧
    filteredJobs [devJob; typistJob] "All" "dev" = Normal result2 ∧
    sublist result2 result1.
Proof.
  apply (longer_term_narrows [devJob; typistJob] "All" "e" "dev").
  - repeat constructor.
  - reflexivity.
Defined.

(** X28. The status counts up to the white space around it: a status that
    is not empty, padded with white space on either side, gives the card
    of the status itself. *)
Theorem status_padding_ignored (job : gmap string value) (s before after : string) :
  s ≠ "" →
  allWhiteSpace before = true →
  allWhiteSpace after = true →
  createJobCardHTML (<["status" := str (before +:+ s +:+ after)]> job) =
    createJobCardHTML (<["status" := str s]> job).
Proof.
  intros Hs Hbefore Hafter. apply createJobCardHTML_same_fields.
  - intros key Hkey. by rewrite !prop_insert_ne.
  - unfold jobStatusOf. rewrite !prop_insert_eq. simpl.
    destruct (String.eqb_spec s "") as [? | _]; [done |].
    destruct (String.eqb_spec (before +:+ s +:+ after) "") as [Hempty | _].
    + exfalso. revert Hempty. apply append_nonempty.
      by destruct s.
    + simpl. by apply trim_padded.
Qed.

Lemma status_padding_ignored_witness :
  createJobCardHTML (<["status" := str (" " +:+ "Filled" +:+ "  ")]> devJob) =
    createJobCardHTML (<["status" := str "Filled"]> devJob).
Proof.
  apply (status_padding_ignored devJob "Filled" " " "  "); [discriminate | done | done].
Defined.

(** X29. Right after a start-up that succeeded with the category [All] and
    a blank search box, running the filter shows the page again as it is:
    the first rendering is the rendering of the default criteria. *)
Theorem default_criteria_show_start_page (status : nat) (csvText : string) (p : page) :
  List.filter isValidJob (parseCSV csvText) ≠ [] →
  Forall (λ job, isRenderable job = true) (List.filter isValidJob (parseCSV csvText)) →
  currentFilter p = "All" →
  allWhiteSpace (jobSearchInput_value p) = true →
  filterAndSearchJobs (snd (initJobBoard (Response true status (Normal csvText)) p)) =
    (Normal tt, snd (initJobBoard (Response true status (Normal csvText)) p)).
Proof.
  intros Hnonempty Hrenderable Hfilter Hblank.
  destruct (initJobBoard_renders status csvText p Hnonempty Hrenderable)
    as (cards & Hcards & _ & ->).
  rewrite filterAndSearchJobs_run. simpl.
  rewrite Hfilter, filteredJobs_all_blank by done.
  rewrite renderJobs_run, Hcards.
  destruct (Nat.eqb_spec (length (List.filter isValidJob (parseCSV csvText))) 0) as [H0 | _].
  { by destruct (List.filter isValidJob (parseCSV csvText)). }
  reflexivity.
Qed.

Lemma default_criteria_show_start_page_witness :
  filterAndSearchJobs
      (snd (initJobBoard
              (Response true 200
                 (Normal (unlines ["Job Title,Type,Description"; "Dev,WFH,Code"])))
              (Page [] "All" " " "" "" ""))) =
    (Normal tt,
     snd (initJobBoard
            (Response true 200
               (Normal (unlines ["Job Title,Type,Description"; "Dev,WFH,Code"])))
            (Page [] "All" " " "" "" ""))).
Proof.
  apply (default_criteria_show_start_page 200
           (unlines ["Job Title,Type,Description"; "Dev,WFH,Code"])
           (Page [] "All" " " "" "" "")).
  - discriminate.
  - repeat constructor.
  - reflexivity.
  - reflexivity.
Defined.
